(** * FitVercel: the food-scan proxy handlers

    A shallow embedding of the two serverless handlers of the repository
    ([api/food-scan/health.js] and [api/food-scan/index.js]) and of the
    properties their specification states about them.

    Conventions of the embedding.
    - A JavaScript string is a [string]; its characters are read as UTF-16
      code units below 256, so [String.length] is the [.length] of the
      source.
    - [Date.now()] is an integer number of milliseconds, a [Z].  Every call
      of [Date.now()] is an explicit argument: [isRateLimited] reads the
      clock twice (once inside [cleanupRateLimitStore], once in its body).
    - The module-level [rateLimitStore] ([new Map()]) is a [gmap] from the
      client identifier to its entry, passed in and out of every function
      that touches it.
    - A thrown [Error] is its [message]; code that can throw returns a
      [result].
    - The reply of the upstream service is an input of the handler (what
      [fetch] did), and every upstream request the handler issues is
      recorded in its outcome. *)

From Stdlib Require Import ZArith QArith String Ascii List Bool Lia.
From Stdlib Require Import DecimalString Decimal.
From stdpp Require Import base option gmap strings list fin_maps.

Import ListNotations.
Local Open Scope string_scope.
Local Open Scope Z_scope.

(** ** Values of the language *)

(** The values a parsed JSON body can hold, plus [undefined]. *)
Unset Elimination Schemes.
Inductive jsval : Type :=
  | JUndefined
  | JNull
  | JBool (b : bool)
  | JNum (q : Q)
  | JStr (s : string)
  | JArr (elems : list jsval)
  | JObj (props : list (string * jsval)).
Set Elimination Schemes.

(** [!!v]: every value is truthy but [undefined], [null], [false], [0]
    and the empty string. *)
Definition truthy (v : jsval) : bool :=
  match v with
  | JUndefined | JNull => false
  | JBool b => b
  | JNum q => negb (Qeq_bool q 0)
  | JStr s => negb (String.eqb s "")
  | JArr _ | JObj _ => true
  end.

(** [a || b] on values. *)
Definition js_or (a b : jsval) : jsval := if truthy a then a else b.

(** ** Exceptions *)

Inductive result (A : Type) : Type :=
  | Ok (a : A)
  | Throw (message : string).
Arguments Ok {A} a.
Arguments Throw {A} message.

Definition rbind {A B : Type} (r : result A) (k : A → result B) : result B :=
  match r with
  | Ok a => k a
  | Throw m => Throw m
  end.

Notation "'let!' x ':=' r 'in' k" := (rbind r (fun x => k))
  (at level 10, x name, r at level 100, k at level 200).

(** ** Property access *)

Fixpoint assoc_lookup (k : string) (props : list (string * jsval)) : option jsval :=
  match props with
  | [] => None
  | (k', v) :: rest => if String.eqb k k' then Some v else assoc_lookup k rest
  end.

(** [obj[k] = v] on an object: an existing key keeps its place. *)
Fixpoint assoc_set (k : string) (v : jsval) (props : list (string * jsval))
  : list (string * jsval) :=
  match props with
  | [] => [(k, v)]
  | (k', v') :: rest =>
      if String.eqb k k' then (k, v) :: rest else (k', v') :: assoc_set k v rest
  end.

Definition type_name (v : jsval) : string :=
  match v with JNull => "null" | _ => "undefined" end.

(** [v.name] for a name that is neither [length] nor an index: only an
    object has such a property; on [undefined] and [null] the access
    throws a TypeError. *)
Definition get_prop (v : jsval) (name : string) : result jsval :=
  match v with
  | JUndefined | JNull =>
      Throw ("Cannot read properties of " ++ type_name v
             ++ " (reading '" ++ name ++ "')")
  | JObj props => Ok (default JUndefined (assoc_lookup name props))
  | _ => Ok JUndefined
  end.

(** [v?.name] *)
Definition get_prop_opt (v : jsval) (name : string) : jsval :=
  match v with
  | JObj props => default JUndefined (assoc_lookup name props)
  | _ => JUndefined
  end.

(** [v.length] of a value that is neither [undefined] nor [null]. *)
Definition get_length (v : jsval) : jsval :=
  match v with
  | JArr l => JNum (inject_Z (Z.of_nat (List.length l)))
  | JStr s => JNum (inject_Z (Z.of_nat (String.length s)))
  | JObj props => default JUndefined (assoc_lookup "length" props)
  | _ => JUndefined
  end.

(** [v[0]] of a value that is neither [undefined] nor [null]. *)
Definition get_first (v : jsval) : jsval :=
  match v with
  | JArr l => List.hd JUndefined l
  | JStr (String c _) => JStr (String c "")
  | JObj props => default JUndefined (assoc_lookup "0" props)
  | _ => JUndefined
  end.

(** [v === 0] *)
Definition is_zero (v : jsval) : bool :=
  match v with JNum q => Qeq_bool q 0 | _ => false end.

(** ** Strings *)

(** [hay.includes(needle)] *)
Fixpoint includes (needle hay : string) : bool :=
  String.prefix needle hay ||
  match hay with
  | EmptyString => false
  | String _ rest => includes needle rest
  end.

(** The rest of [s] after the literal [p], when [s] starts with [p]. *)
Fixpoint strip_literal (p s : string) : option string :=
  match p, s with
  | EmptyString, _ => Some s
  | String a p', String b s' => if Ascii.eqb a b then strip_literal p' s' else None
  | String _ _, EmptyString => None
  end.

Fixpoint drop_while (f : ascii → bool) (s : string) : string :=
  match s with
  | EmptyString => EmptyString
  | String c rest => if f c then drop_while f rest else s
  end.

Fixpoint string_forall (f : ascii → bool) (s : string) : bool :=
  match s with
  | EmptyString => true
  | String c rest => f c && string_forall f rest
  end.

Definition code (c : ascii) : N := N_of_ascii c.

(** [\s] of a regular expression, and the characters [trim] removes,
    among code units below 256: tab, line feed, vertical tab, form feed,
    carriage return, space and no-break space. *)
Definition is_space (c : ascii) : bool :=
  let n := code c in
  ((9 <=? n) && (n <=? 13) || (n =? 32) || (n =? 160))%N.

(** The characters [.] does not match: line feed and carriage return. *)
Definition is_line_terminator (c : ascii) : bool :=
  let n := code c in ((n =? 10) || (n =? 13))%N.

(** [[a-zA-Z+]] *)
Definition is_subtype_char (c : ascii) : bool :=
  let n := code c in
  ((97 <=? n) && (n <=? 122) || (65 <=? n) && (n <=? 90) || (n =? 43))%N.

Fixpoint trim_end (s : string) : string :=
  match s with
  | EmptyString => EmptyString
  | String c rest =>
      match trim_end rest with
      | EmptyString => if is_space c then EmptyString else String c EmptyString
      | rest' => String c rest'
      end
  end.

(** [s.trim()] *)
Definition trim (s : string) : string := trim_end (drop_while is_space s).

(** [s.split(',')[0]] *)
Fixpoint before_comma (s : string) : string :=
  match s with
  | EmptyString => EmptyString
  | String c rest => if Ascii.eqb c "," then EmptyString else String c (before_comma rest)
  end.

(** [parts.join(sep)] *)
Fixpoint join (sep : string) (parts : list string) : string :=
  match parts with
  | [] => ""
  | [p] => p
  | p :: rest => p ++ sep ++ join sep rest
  end.

(** Decimal rendering of a number interpolated into a template string. *)
Definition decimal (z : Z) : string := NilZero.string_of_int (Z.to_int z).

(** ** Requests and responses *)

(** What a handler reads of [req]: the method, the headers, the address
    of the connection ([req.connection?.remoteAddress], absent when either
    is) and the parsed body. *)
Record request : Type := mkRequest {
  method : string;
  headers : gmap string string;
  remoteAddress : option string;
  body : jsval
}.

(** What a handler writes to [res]: [res.setHeader], [res.status] and
    [res.json] (a body) or [res.end] (none). *)
Record response : Type := mkResponse {
  status : Z;
  resp_headers : gmap string string;
  resp_body : option jsval
}.

(** The response object as the platform hands it to a handler. *)
Definition fresh_response : response := mkResponse 200 ∅ None.

Definition setHeader (name value : string) (res : response) : response :=
  mkResponse (status res) (<[name := value]> (resp_headers res)) (resp_body res).

(** [res.status(code).json(v)] *)
Definition send_json (code : Z) (v : jsval) (res : response) : response :=
  mkResponse code (resp_headers res) (Some v).

(** [res.status(code).end()] *)
Definition send_end (code : Z) (res : response) : response :=
  mkResponse code (resp_headers res) None.

(** [Boolean(process.env.NAME)]: the variable is set and not empty. *)
Definition env_truthy (v : option string) : bool :=
  match v with
  | Some s => negb (String.eqb s "")
  | None => false
  end.

(** ** The health endpoint ([api/food-scan/health.js]) *)

Module Health.

Definition ALLOWED_ORIGIN : string := "https://eray464646.github.io".

Definition setCorsHeaders (res : response) : response :=
  setHeader "Vary" "Origin"
    (setHeader "Access-Control-Allow-Headers" "Content-Type, Authorization"
       (setHeader "Access-Control-Allow-Methods" "GET, OPTIONS"
          (setHeader "Access-Control-Allow-Origin" ALLOWED_ORIGIN res))).

(** [handler(req, res)], with [GEMINI_API_KEY] the value of
    [process.env.GEMINI_API_KEY]. *)
Definition handler (GEMINI_API_KEY : option string) (req : request) : response :=
  let res := setCorsHeaders fresh_response in
  if String.eqb (method req) "OPTIONS" then send_end 200 res
  else if negb (String.eqb (method req) "GET") then
    send_json 405 (JObj [("error", JStr "Method not allowed")]) res
  else
    let isConfigured := env_truthy GEMINI_API_KEY in
    send_json 200
      (JObj [("ok", JBool true);
             ("provider", JStr "gemini");
             ("configured", JBool isConfigured)]) res.

End Health.

(** ** The scan endpoint ([api/food-scan/index.js]) *)

Module FoodScan.

Definition ALLOWED_ORIGIN : string := "https://eray464646.github.io".
Definition GEMINI_API_BASE : string :=
  "https://generativelanguage.googleapis.com/v1beta/models".
Definition GEMINI_MODEL : string := "gemini-1.5-flash".

(** *** The rate limiter *)

(** One minute, in milliseconds. *)
Definition RATE_LIMIT_WINDOW : Z := 60 * 1000.
Definition RATE_LIMIT_MAX_REQUESTS : Z := 10.

Record RateLimitEntry : Type := mkEntry {
  windowStart : Z;
  count : Z
}.

(** The [Map] from client identifier to entry. *)
Abbreviation store := (gmap string RateLimitEntry).

(** The test of the sweep: [now - data.windowStart > RATE_LIMIT_WINDOW]. *)
Definition stale (now : Z) (data : RateLimitEntry) : bool :=
  RATE_LIMIT_WINDOW <? now - windowStart data.

(** [cleanupRateLimitStore()], with [now] the value [Date.now()] gave it:
    every entry that passes the test is deleted. *)
Definition cleanupRateLimitStore (now : Z) (st : store) : store :=
  filter (λ kv, stale now kv.2 = false) st.

(** [isRateLimited(ip)]: the answer and the store it leaves.  [now_sweep]
    is the clock read by the sweep, [now] the clock read afterwards. *)
Definition isRateLimited (now_sweep now : Z) (ip : string) (st : store)
  : bool * store :=
  let st := cleanupRateLimitStore now_sweep st in
  match st !! ip with
  | None => (false, <[ip := mkEntry now 1]> st)
  | Some clientData =>
      if now - windowStart clientData <? RATE_LIMIT_WINDOW then
        if RATE_LIMIT_MAX_REQUESTS <=? count clientData then (true, st)
        else
          (false,
           <[ip := mkEntry (windowStart clientData) (count clientData + 1)]> st)
      else (false, <[ip := mkEntry now 1]> st)
  end.

(** [a || b] for a header that may be absent and a string. *)
Definition or_else (a : option string) (b : string) : string :=
  match a with
  | Some s => if String.eqb s "" then b else s
  | None => b
  end.

(** [getClientIp(req)] *)
Definition getClientIp (req : request) : string :=
  or_else ((λ h, trim (before_comma h)) <$> headers req !! "x-forwarded-for")
    (or_else (headers req !! "x-real-ip")
       (or_else (remoteAddress req) "unknown")).

(** *** Validation of the payload *)

(** [s.match(/^data:image\/[a-zA-Z+]+;base64,(.+)$/)]: the first group
    when the expression matches.  The class [[a-zA-Z+]] holds no [;], so
    the run of subtype characters is the longest one; the group is the
    whole rest, which has to be non-empty and free of line terminators. *)
Definition match_data_url (s : string) : option string :=
  rest ← strip_literal "data:image/" s;
  let after_subtype := drop_while is_subtype_char rest in
  if (String.length after_subtype <? String.length rest)%nat then
    payload ← strip_literal ";base64," after_subtype;
    if negb (String.eqb payload "")
       && string_forall (λ c, negb (is_line_terminator c)) payload
    then Some payload else None
  else None.

(** [stripDataUrlPrefix(imageBase64)].  A truthy value that is not a string
    has no [match] method, and the call throws a TypeError. *)
Definition stripDataUrlPrefix (imageBase64 : jsval) : result string :=
  if negb (truthy imageBase64) then Ok ""
  else
    match imageBase64 with
    | JStr s =>
        match match_data_url s with
        | Some payload => Ok payload
        | None => Ok s
        end
    | _ => Throw "imageBase64.match is not a function"
    end.

Record validation : Type := mkValidation {
  valid : bool;
  errors : list string;
  cleanBase64 : string
}.

Definition allowedMimeTypes : list string := ["image/jpeg"; "image/png"].

(** [allowedMimeTypes.includes(v)] *)
Definition allowed_includes (v : jsval) : bool :=
  match v with
  | JStr s => existsb (String.eqb s) allowedMimeTypes
  | _ => false
  end.

(** [(cleanBase64.length * 3) / 4] *)
Definition estimatedSizeBytes (clean : string) : Q :=
  (inject_Z (Z.of_nat (String.length clean)) * 3 / 4)%Q.

Definition maxSizeMB : Z := 10.
Definition maxSizeBytes : Q := inject_Z (maxSizeMB * 1024 * 1024).

(** [a > b] on numbers. *)
Definition Qgtb (a b : Q) : bool := negb (Qle_bool a b).

(** [errors.push(e)] when [c] holds. *)
Definition push_if (c : bool) (e : string) (errors : list string) : list string :=
  if c then errors ++ [e] else errors.

(** [validateImagePayload(imageBase64, mimeType)] *)
Definition validateImagePayload (imageBase64 mimeType : jsval) : result validation :=
  let errors := [] in
  let errors :=
    push_if (negb (truthy mimeType) || negb (allowed_includes mimeType))
      ("Invalid mimeType. Allowed: " ++ join ", " allowedMimeTypes) errors in
  let errors :=
    push_if (negb (truthy imageBase64)) "imageBase64 is required" errors in
  let! clean := stripDataUrlPrefix imageBase64 in
  let errors :=
    push_if (Qgtb (estimatedSizeBytes clean) maxSizeBytes)
      ("Image too large. Max size: " ++ decimal maxSizeMB ++ "MB") errors in
  Ok (mkValidation (Nat.eqb (List.length errors) 0) errors clean).

(** *** The upstream call *)

(** What [fetch] and the reading of the reply did: the promise of [fetch]
    was rejected, or it gave a response with a status, whose body read as
    text ([response.text()]) or as JSON ([response.json()]) gives a value
    or throws. *)
Inductive fetch_outcome : Type :=
  | FetchRejected (message : string)
  | FetchResponse (code : Z) (text : result string) (json : result jsval).

(** [response.ok]: the status is in the range 200 to 299. *)
Definition response_ok (code : Z) : bool := (200 <=? code) && (code <=? 299).

(** A request sent upstream: the URL and the payload that
    [JSON.stringify] serialises into the body. *)
Record upstream_request : Type := mkUpstream {
  up_url : string;
  up_payload : jsval
}.

Section Pipeline.

(** The fixed instruction text of [callGeminiVision]. *)
Variable prompt : string.

(** [JSON.parse] on a text that starts with an opening brace and ends
    with a closing one, as [parseGeminiResponse] calls it: such a text
    denotes an object or is not JSON, so the call gives the properties of
    an object or throws a SyntaxError with its message. *)
Variable JSON_parse : string → result (list (string * jsval)).

Definition gemini_payload (imageBase64 : string) (mimeType : jsval) : jsval :=
  JObj
    [("contents",
      JArr
        [JObj
           [("parts",
             JArr
               [JObj [("text", JStr prompt)];
                JObj
                  [("inlineData",
                    JObj [("mimeType", mimeType); ("data", JStr imageBase64)])]])]]);
     ("generationConfig",
      JObj
        [("temperature", JNum (4 # 10));
         ("topK", JNum 32);
         ("topP", JNum 1);
         ("maxOutputTokens", JNum 2048)])].

(** [callGeminiVision(imageBase64, mimeType, apiKey)]: the request it
    sends and what it returns or throws, given what [fetch] did. *)
Definition callGeminiVision (upstream : fetch_outcome)
    (imageBase64 : string) (mimeType : jsval) (apiKey : string)
  : upstream_request * result jsval :=
  let url :=
    GEMINI_API_BASE ++ "/" ++ GEMINI_MODEL ++ ":generateContent?key=" ++ apiKey in
  let payload := gemini_payload imageBase64 mimeType in
  (mkUpstream url payload,
   match upstream with
   | FetchRejected message => Throw message
   | FetchResponse code text json =>
       if negb (response_ok code) then
         let! errorText := text in
         Throw ("Gemini API error (" ++ decimal code ++ "): "
                ++ String.substring 0 200 errorText)
       else json
   end).

(** *** Normalisation of the reply *)

(** [s.replace(/FENCE\s*/g, '')] for a literal [FENCE] that starts with a
    character that is not white space: [drop] characters of a fence are
    still to be removed, then ([ws]) the white space after it. *)
Fixpoint remove_fence_from (fence : string) (drop : nat) (ws : bool) (s : string)
  : string :=
  match s with
  | EmptyString => EmptyString
  | String c rest =>
      match drop with
      | S d => remove_fence_from fence d true rest
      | O =>
          if ws && is_space c then remove_fence_from fence 0 true rest
          else if String.prefix fence s then
            remove_fence_from fence (String.length fence - 1) true rest
          else String c (remove_fence_from fence 0 false rest)
      end
  end.

Definition remove_fence (fence s : string) : string :=
  remove_fence_from fence 0 false s.

(** The part of [s] from its first opening brace on. *)
Fixpoint from_open_brace (s : string) : option string :=
  match s with
  | EmptyString => None
  | String c rest => if Ascii.eqb c "{" then Some s else from_open_brace rest
  end.

(** The part of [s] up to its last closing brace. *)
Fixpoint upto_close_brace (s : string) : option string :=
  match s with
  | EmptyString => None
  | String c rest =>
      match upto_close_brace rest with
      | Some r => Some (String c r)
      | None => if Ascii.eqb c "}" then Some (String c EmptyString) else None
      end
  end.

(** [s.match(/\{[\s\S]*\}/)]: from the first opening brace to the last
    closing brace after it. *)
Definition match_json_object (s : string) : option string :=
  from_open_brace s ≫= upto_close_brace.

Definition is_array (v : jsval) : bool :=
  match v with JArr _ => true | _ => false end.

Definition is_undefined (v : jsval) : bool :=
  match v with JUndefined => true | _ => false end.

Definition fallback (message : string) : jsval :=
  JObj
    [("detected", JBool true);
     ("items", JArr []);
     ("notes", JStr "Model returned non-JSON output; please confirm manually.");
     ("parseError", JStr message)].

(** The [try] block of [parseGeminiResponse]. *)
Definition parseGeminiResponse_try (geminiResponse : jsval) : result jsval :=
  let! candidates := get_prop geminiResponse "candidates" in
  if negb (truthy candidates) || is_zero (get_length candidates) then
    Throw "No candidates in Gemini response"
  else
    let parts := get_prop_opt (get_prop_opt (get_first candidates) "content") "parts" in
    if negb (truthy parts) || is_zero (get_length parts) then
      Throw "No parts in Gemini response"
    else
      let textContent := js_or (get_prop_opt (get_first parts) "text") (JStr "") in
      match textContent with
      | JStr text =>
          let text := remove_fence "```" (remove_fence "```json" text) in
          match match_json_object text with
          | None => Throw "No JSON object found in response"
          | Some jsonMatch =>
              let! parsedJson := JSON_parse jsonMatch in
              let parsedJson :=
                if is_undefined (default JUndefined (assoc_lookup "detected" parsedJson))
                then assoc_set "detected" (JBool true) parsedJson
                else parsedJson in
              let parsedJson :=
                if negb (is_array (default JUndefined (assoc_lookup "items" parsedJson)))
                then assoc_set "items" (JArr []) parsedJson
                else parsedJson in
              Ok (JObj parsedJson)
          end
      | _ => Throw "textContent.replace is not a function"
      end.

(** [parseGeminiResponse(geminiResponse)]: the [catch] turns whatever the
    block throws into the fallback. *)
Definition parseGeminiResponse (geminiResponse : jsval) : jsval :=
  match parseGeminiResponse_try geminiResponse with
  | Ok parsedJson => parsedJson
  | Throw message => fallback message
  end.

(** *** The handler *)

(** What one invocation reads from outside the program: the two readings
    of the clock made by [isRateLimited] and what [fetch] does. *)
Record world : Type := mkWorld {
  clock_sweep : Z;
  clock : Z;
  upstream : fetch_outcome
}.

(** What one invocation leaves: the response, the rate-limit table and the
    requests sent upstream. *)
Record outcome : Type := mkOutcome {
  out_response : response;
  out_store : store;
  out_upstream : list upstream_request
}.

Definition setCorsHeaders (res : response) : response :=
  setHeader "Vary" "Origin"
    (setHeader "Access-Control-Allow-Headers" "Content-Type, Authorization"
       (setHeader "Access-Control-Allow-Methods" "POST, OPTIONS"
          (setHeader "Access-Control-Allow-Origin" ALLOWED_ORIGIN res))).

(** [const { imageBase64, mimeType } = req.body]: destructuring
    [undefined] or [null] throws a TypeError; a value that is not an
    object has neither property. *)
Definition destructure_body (body : jsval) : result (jsval * jsval) :=
  match body with
  | JUndefined | JNull =>
      Throw ("Cannot destructure property 'imageBase64' of 'req.body' as it is "
             ++ type_name body ++ ".")
  | JObj props =>
      Ok (default JUndefined (assoc_lookup "imageBase64" props),
          default JUndefined (assoc_lookup "mimeType" props))
  | _ => Ok (JUndefined, JUndefined)
  end.

Definition config_error : jsval :=
  JObj [("error", JStr "API not configured");
        ("message", JStr "GEMINI_API_KEY environment variable is not set")].

Definition rate_limit_error : jsval :=
  JObj [("error", JStr "Rate limit exceeded");
        ("message",
         JStr ("Maximum " ++ decimal RATE_LIMIT_MAX_REQUESTS
               ++ " requests per minute allowed"))].

Definition validation_error (errors : list string) : jsval :=
  JObj [("error", JStr "Invalid request"); ("details", JArr (JStr <$> errors))].

(** The [try] block of [handler]: the table it leaves, the requests it
    sent upstream, and the response it gave or the error it threw. *)
Definition handler_try (GEMINI_API_KEY : option string) (w : world)
    (st : store) (req : request) (res : response)
  : store * list upstream_request * result response :=
  if negb (env_truthy GEMINI_API_KEY) then (st, [], Ok (send_json 500 config_error res))
  else
    let apiKey := default "" GEMINI_API_KEY in
    let clientIp := getClientIp req in
    let '(limited, st) := isRateLimited (clock_sweep w) (clock w) clientIp st in
    if limited then
      (st, [], Ok (send_json 429 rate_limit_error (setHeader "Retry-After" "60" res)))
    else
      match
        (let! fields := destructure_body (body req) in
         let '(imageBase64, mimeType) := fields in
         let! validation := validateImagePayload imageBase64 mimeType in
         Ok (mimeType, validation))
      with
      | Throw message => (st, [], Throw message)
      | Ok (mimeType, validation) =>
          if negb (valid validation) then
            (st, [], Ok (send_json 400 (validation_error (errors validation)) res))
          else
            let '(sent, reply) :=
              callGeminiVision (upstream w) (cleanBase64 validation) mimeType apiKey in
            match reply with
            | Throw message => (st, [sent], Throw message)
            | Ok geminiResponse =>
                (st, [sent], Ok (send_json 200 (parseGeminiResponse geminiResponse) res))
            end
      end.

(** The [catch] block of [handler]. *)
Definition error_response (message : string) (res : response) : response :=
  if includes "Gemini API error" message then
    send_json 502
      (JObj [("error", JStr "External API error"); ("message", JStr message)]) res
  else if includes "fetch" message then
    send_json 500
      (JObj [("error", JStr "Network error");
             ("message", JStr "Failed to connect to Gemini API")]) res
  else
    send_json 500
      (JObj [("error", JStr "Internal server error");
             ("message", JStr "An unexpected error occurred")]) res.

(** [handler(req, res)], with [GEMINI_API_KEY] the value of
    [process.env.GEMINI_API_KEY] and [st] the table it finds. *)
Definition handler (GEMINI_API_KEY : option string) (w : world)
    (st : store) (req : request) : outcome :=
  let res := setCorsHeaders fresh_response in
  if String.eqb (method req) "OPTIONS" then mkOutcome (send_end 200 res) st []
  else if negb (String.eqb (method req) "POST") then
    mkOutcome (send_json 405 (JObj [("error", JStr "Method not allowed")]) res) st []
  else
    match handler_try GEMINI_API_KEY w st req res with
    | (st, sent, Ok res) => mkOutcome res st sent
    | (st, sent, Throw message) => mkOutcome (error_response message res) st sent
    end.

(** The handler serving a sequence of requests, each with its own
    readings of the outside: the outcome of each.  The handler touches the
    table only in [isRateLimited], before its first [await], so the calls
    of [isRateLimited] never interleave and the table each request finds
    is the one the request before it left. *)
Fixpoint serve (GEMINI_API_KEY : option string) (st : store)
    (arrivals : list (world * request)) : list outcome :=
  match arrivals with
  | [] => []
  | (w, req) :: rest =>
      let o := handler GEMINI_API_KEY w st req in
      o :: serve GEMINI_API_KEY (out_store o) rest
  end.

End Pipeline.

End FoodScan.

Import FoodScan.

Arguments callGeminiVision : simpl never.
Arguments validateImagePayload : simpl never.
Arguments destructure_body : simpl never.
Arguments isRateLimited : simpl never.
Arguments parseGeminiResponse : simpl never.
Arguments error_response : simpl never.
Arguments getClientIp : simpl never.
Arguments setCorsHeaders : simpl never.
Arguments Health.setCorsHeaders : simpl never.

(** ** Vocabulary of the properties *)

(** A call of one of the two functions that touch the rate-limit table,
    with the clock readings it makes. *)
Inductive limiter_call : Type :=
  | CallIsRateLimited (now_sweep now : Z) (ip : string)
  | CallCleanup (now : Z).

Definition run_call (st : store) (c : limiter_call) : store :=
  match c with
  | CallIsRateLimited now_sweep now ip => (isRateLimited now_sweep now ip st).2
  | CallCleanup now => cleanupRateLimitStore now st
  end.

(** The table after a sequence of calls, from the table [st]. *)
Definition run_calls (st : store) (calls : list limiter_call) : store :=
  fold_left run_call calls st.

(** Every stored count is between one and the maximum. *)
Definition counts_bounded (st : store) : Prop :=
  map_Forall (λ _ e, 1 ≤ count e ≤ RATE_LIMIT_MAX_REQUESTS) st.

(** The window of the entry has elapsed at [now]. *)
Definition window_elapsed (now : Z) (e : RateLimitEntry) : Prop :=
  RATE_LIMIT_WINDOW ≤ now - windowStart e.

(** The arrival is a POST of the client [ip]. *)
Definition is_post_from (ip : string) (a : world * request) : bool :=
  String.eqb (method a.2) "POST" && String.eqb (getClientIp a.2) ip.

(** Both clock readings of the arrival fall in the window opened at [t0]. *)
Definition in_window (t0 : Z) (w : world) : Prop :=
  clock_sweep w - t0 < RATE_LIMIT_WINDOW ∧ clock w - t0 < RATE_LIMIT_WINDOW.

(** How many of the arrivals are POSTs of the client [ip]. *)
Definition posts_from (ip : string) (arrivals : list (world * request)) : Z :=
  Z.of_nat (List.length (List.filter (is_post_from ip) arrivals)).

(** The response to a client over its quota. *)
Definition too_many : response :=
  send_json 429 rate_limit_error
    (setHeader "Retry-After" "60" (setCorsHeaders fresh_response)).

(** The reading of the sweep that the specification gives: the window of
    the entry (which ends [RATE_LIMIT_WINDOW] after [windowStart]) expired
    more than one window-length before [now]. *)
Definition expired_over_a_window_ago (now : Z) (e : RateLimitEntry) : Prop :=
  RATE_LIMIT_WINDOW < now - (windowStart e + RATE_LIMIT_WINDOW).

(** An instance of [JSON.parse] for the examples: it knows the empty
    object and rejects every other text. *)
Definition JSON_parse_example (s : string) : result (list (string * jsval)) :=
  if String.eqb s "{}" then Ok [] else Throw "Unexpected token in JSON".

(** The upstream credential is present in the configuration of the
    process: [GEMINI_API_KEY] is set to a string that is not empty. *)
Definition credential_present (key : option string) : Prop :=
  ∃ k, key = Some k ∧ k ≠ "".

(** The three headers every response carries. *)
Definition carries_cors (res : response) : Prop :=
  resp_headers res !! "Access-Control-Allow-Origin"
    = Some "https://eray464646.github.io" ∧
  resp_headers res !! "Access-Control-Allow-Headers"
    = Some "Content-Type, Authorization" ∧
  resp_headers res !! "Vary" = Some "Origin".

(** The message mentions the upstream-error condition, as the [catch]
    block tests it. *)
Definition mentions_upstream_error (message : string) : Prop :=
  includes "Gemini API error" message = true.

(** The message indicates a failure to connect, as the [catch] block
    tests it. *)
Definition indicates_network_failure (message : string) : Prop :=
  includes "fetch" message = true.

(** A character of the base64 alphabet: a letter, a digit, [+], [/] or
    the padding [=]. *)
Definition is_base64_char (c : ascii) : bool :=
  let n := code c in
  ((97 <=? n) && (n <=? 122) || (65 <=? n) && (n <=? 90)
   || (48 <=? n) && (n <=? 57) || (n =? 43) || (n =? 47) || (n =? 61))%N.

(** The size [validateImagePayload] estimates for a submitted image. *)
Definition estimated_size_of (imageBase64 : jsval) : result Q :=
  let! clean := stripDataUrlPrefix imageBase64 in
  Ok (estimatedSizeBytes clean).

(** The payload behind a data-URL prefix with the given subtype. *)
Definition data_url (subtype payload : string) : string :=
  "data:image/" ++ subtype ++ ";base64," ++ payload.

(** The first and the last character of a string. *)
Definition first_char (s : string) : option ascii :=
  match s with
  | EmptyString => None
  | String c _ => Some c
  end.

Fixpoint last_char (s : string) : option ascii :=
  match s with
  | EmptyString => None
  | String c EmptyString => Some c
  | String _ rest => last_char rest
  end.

(** The character [c] does not occur in [s]. *)
Definition free_of (c : ascii) (s : string) : Prop :=
  string_forall (λ x, negb (Ascii.eqb x c)) s = true.

(** The request with its [x-forwarded-for] header set to [h]. *)
Definition forwarded_for (h : string) (req : request) : request :=
  mkRequest (method req) (<["x-forwarded-for" := h]> (headers req))
    (remoteAddress req) (body req).

(** The number of characters above which the stripped payload is too
    large: the estimate [length * 3 / 4] exceeds 10 MiB from 13981014
    characters on. *)
Definition max_base64_length : Z := 13981013.

(** ** The rate-limit table *)

Lemma cleanup_lookup (now : Z) (st : store) (k : string) :
  cleanupRateLimitStore now st !! k =
  match st !! k with
  | Some e => if stale now e then None else Some e
  | None => None
  end.
Proof.
  unfold cleanupRateLimitStore. rewrite map_lookup_filter.
  destruct (st !! k) as [e|]; simpl; [|done].
  destruct (stale now e); reflexivity.
Qed.

Lemma stale_spec (now : Z) (e : RateLimitEntry) :
  stale now e = true ↔ RATE_LIMIT_WINDOW < now - windowStart e.
Proof. unfold stale. apply Z.ltb_lt. Qed.

Lemma stale_false (now : Z) (e : RateLimitEntry) :
  stale now e = false ↔ now - windowStart e ≤ RATE_LIMIT_WINDOW.
Proof. unfold stale. rewrite Z.ltb_ge. done. Qed.

Lemma cleanup_lookup_Some (now : Z) (st : store) (k : string) (e : RateLimitEntry) :
  cleanupRateLimitStore now st !! k = Some e ↔
  st !! k = Some e ∧ now - windowStart e ≤ RATE_LIMIT_WINDOW.
Proof.
  rewrite cleanup_lookup.
  destruct (st !! k) as [e'|]; [|split; [discriminate | intros [? _]; discriminate]].
  destruct (stale now e') eqn:Hs.
  - split; [discriminate|]. intros [[= ->] Hle].
    apply stale_false in Hle. congruence.
  - split.
    + intros [= ->]. split; [reflexivity | by apply stale_false].
    + intros [[= ->] _]. reflexivity.
Qed.

Lemma cleanup_idempotent (now : Z) (st : store) :
  cleanupRateLimitStore now (cleanupRateLimitStore now st)
  = cleanupRateLimitStore now st.
Proof.
  apply map_eq. intros k. rewrite !cleanup_lookup.
  destruct (st !! k) as [e|]; [|done].
  destruct (stale now e) eqn:Hs; [done|]. by rewrite Hs.
Qed.

Lemma isRateLimited_other (now_sweep now : Z) (ip k : string) (st : store) :
  k ≠ ip →
  (isRateLimited now_sweep now ip st).2 !! k = cleanupRateLimitStore now_sweep st !! k.
Proof.
  intros Hne. unfold isRateLimited.
  destruct (cleanupRateLimitStore now_sweep st !! ip) as [e|]; simpl.
  - destruct (now - windowStart e <? RATE_LIMIT_WINDOW);
      [destruct (RATE_LIMIT_MAX_REQUESTS <=? count e)|]; simpl;
      rewrite ?lookup_insert_ne; done.
  - by rewrite lookup_insert_ne.
Qed.

(** The three cases of [isRateLimited] on the entry the sweep leaves. *)
Lemma isRateLimited_absent (now_sweep now : Z) (ip : string) (st : store) :
  cleanupRateLimitStore now_sweep st !! ip = None →
  isRateLimited now_sweep now ip st =
  (false, <[ip := mkEntry now 1]> (cleanupRateLimitStore now_sweep st)).
Proof. intros H. unfold isRateLimited. by rewrite H. Qed.

Lemma isRateLimited_elapsed (now_sweep now : Z) (ip : string) (st : store)
    (e : RateLimitEntry) :
  cleanupRateLimitStore now_sweep st !! ip = Some e →
  window_elapsed now e →
  isRateLimited now_sweep now ip st =
  (false, <[ip := mkEntry now 1]> (cleanupRateLimitStore now_sweep st)).
Proof.
  intros H Hel. unfold isRateLimited. rewrite H.
  unfold window_elapsed in Hel.
  destruct (Z.ltb_spec (now - windowStart e) RATE_LIMIT_WINDOW); [lia|done].
Qed.

Lemma isRateLimited_within (now_sweep now : Z) (ip : string) (st : store)
    (e : RateLimitEntry) :
  cleanupRateLimitStore now_sweep st !! ip = Some e →
  now - windowStart e < RATE_LIMIT_WINDOW →
  isRateLimited now_sweep now ip st =
  if RATE_LIMIT_MAX_REQUESTS <=? count e
  then (true, cleanupRateLimitStore now_sweep st)
  else (false,
        <[ip := mkEntry (windowStart e) (count e + 1)]>
          (cleanupRateLimitStore now_sweep st)).
Proof.
  intros H Hin. unfold isRateLimited. rewrite H.
  destruct (Z.ltb_spec (now - windowStart e) RATE_LIMIT_WINDOW); [done|lia].
Qed.

Lemma cleanup_counts_bounded (now : Z) (st : store) :
  counts_bounded st → counts_bounded (cleanupRateLimitStore now st).
Proof.
  unfold counts_bounded. intros H k e Hk.
  apply cleanup_lookup_Some in Hk as [Hk _]. by apply (H k).
Qed.

Lemma isRateLimited_counts_bounded (now_sweep now : Z) (ip : string) (st : store) :
  counts_bounded st → counts_bounded (isRateLimited now_sweep now ip st).2.
Proof.
  intros H. apply (cleanup_counts_bounded now_sweep) in H.
  unfold isRateLimited.
  destruct (cleanupRateLimitStore now_sweep st !! ip) as [e|] eqn:He; simpl.
  - pose proof (H ip e He) as Hb. simpl in Hb.
    destruct (now - windowStart e <? RATE_LIMIT_WINDOW);
      [destruct (Z.leb_spec RATE_LIMIT_MAX_REQUESTS (count e))|]; simpl.
    + done.
    + apply map_Forall_insert_2; [simpl; lia | done].
    + apply map_Forall_insert_2; [by compute | done].
  - apply map_Forall_insert_2; [by compute | done].
Qed.

(** C10. From the empty table the module starts with, after any sequence
    of calls of [isRateLimited] and [cleanupRateLimitStore], with any
    clock readings, every entry of the table has a count between 1 and
    [RATE_LIMIT_MAX_REQUESTS] (10). *)
Theorem stored_counts_bounded (calls : list limiter_call) (ip : string)
    (e : RateLimitEntry) :
  run_calls ∅ calls !! ip = Some e →
  1 ≤ count e ≤ RATE_LIMIT_MAX_REQUESTS ∧ RATE_LIMIT_MAX_REQUESTS = 10.
Proof.
  assert (Hinv : ∀ cs st, counts_bounded st → counts_bounded (run_calls st cs)).
  { induction cs as [|c cs IH]; intros st Hst; [done|].
    simpl. apply IH. destruct c; simpl.
    - by apply isRateLimited_counts_bounded.
    - by apply cleanup_counts_bounded. }
  intros Hk. split; [|done].
  apply (Hinv calls ∅ (map_Forall_empty _) ip e Hk).
Qed.

Lemma stored_counts_bounded_witness :
  run_calls ∅
    [CallIsRateLimited 0 0 "1.2.3.4"; CallCleanup 5;
     CallIsRateLimited 7 8 "1.2.3.4"] !! "1.2.3.4" = Some (mkEntry 0 2) ∧
  1 ≤ 2 ≤ RATE_LIMIT_MAX_REQUESTS ∧ RATE_LIMIT_MAX_REQUESTS = 10.
Proof.
  split; [vm_compute; reflexivity|].
  apply (stored_counts_bounded
           [CallIsRateLimited 0 0 "1.2.3.4"; CallCleanup 5;
            CallIsRateLimited 7 8 "1.2.3.4"]
           "1.2.3.4" (mkEntry 0 2)).
  vm_compute. reflexivity.
Defined.

(** ** The scan handler and the rate limiter *)

Section ScanHandler.

Variable prompt : string.
Variable JSON_parse : string → result (list (string * jsval)).

Abbreviation scan := (handler prompt JSON_parse).
Abbreviation scan_try := (handler_try prompt JSON_parse).

Lemma error_response_status (message : string) (res : response) :
  status (error_response message res) = 502 ∨
  status (error_response message res) = 500.
Proof.
  unfold error_response.
  destruct (includes "Gemini API error" message); [by left|].
  destruct (includes "fetch" message); by right.
Qed.

(** A POST with the credential configured: the table the handler leaves is
    the one [isRateLimited] leaves; the response is the 429 when it
    answers [true] and has another status when it answers [false]. *)
Lemma scan_post (key : option string) (w : world) (st : store) (req : request) :
  method req = "POST" →
  env_truthy key = true →
  let r := isRateLimited (clock_sweep w) (clock w) (getClientIp req) st in
  let o := scan key w st req in
  out_store o = r.2 ∧
  (r.1 = true →
   out_response o =
     send_json 429 rate_limit_error
       (setHeader "Retry-After" "60" (setCorsHeaders fresh_response)) ∧
   out_upstream o = []) ∧
  (r.1 = false → status (out_response o) ≠ 429).
Proof.
  intros Hm Hk r o. subst r o. unfold handler, handler_try.
  rewrite Hm, Hk. cbn.
  change (String.eqb "POST" "OPTIONS") with false.
  change (String.eqb "POST" "POST") with true. cbn.
  destruct (isRateLimited (clock_sweep w) (clock w) (getClientIp req) st)
    as [limited st'].
  destruct limited; simpl fst; simpl snd.
  { split; [reflexivity|]. split; [intros _; split; reflexivity | discriminate]. }
  split; [|split; [discriminate|intros _]].
  - destruct (destructure_body (body req)) as [[img mime]|m]; cbn; [|done].
    destruct (validateImagePayload img mime) as [v|m]; cbn; [|done].
    destruct (valid v); cbn; [|done].
    destruct (callGeminiVision prompt (upstream w) (cleanBase64 v) mime (default "" key))
      as [sent [g|m]]; done.
  - destruct (destructure_body (body req)) as [[img mime]|m]; cbn;
      [|destruct (error_response_status m (setCorsHeaders fresh_response)) as [->| ->]; done].
    destruct (validateImagePayload img mime) as [v|m]; cbn;
      [|destruct (error_response_status m (setCorsHeaders fresh_response)) as [->| ->]; done].
    destruct (valid v); cbn; [|done].
    destruct (callGeminiVision prompt (upstream w) (cleanBase64 v) mime (default "" key))
      as [sent [g|m]]; cbn; [done|].
    destruct (error_response_status m (setCorsHeaders fresh_response)) as [->| ->]; done.
Qed.

(** A request that is not a POST leaves the table as it is. *)
Lemma scan_not_post (key : option string) (w : world) (st : store) (req : request) :
  method req ≠ "POST" → out_store (scan key w st req) = st.
Proof.
  intros Hm. unfold handler.
  destruct (String.eqb_spec (method req) "OPTIONS"); [done|].
  destruct (String.eqb_spec (method req) "POST"); done.
Qed.

(** The lookup of a client without an entry, or with an entry whose
    window has elapsed, opens a new window, whatever the sweep did. *)
Lemma isRateLimited_fresh (now_sweep now : Z) (ip : string) (st : store) :
  (st !! ip = None ∨ ∃ e, st !! ip = Some e ∧ window_elapsed now e) →
  isRateLimited now_sweep now ip st =
  (false, <[ip := mkEntry now 1]> (cleanupRateLimitStore now_sweep st)).
Proof.
  intros Hexp.
  destruct (cleanupRateLimitStore now_sweep st !! ip) as [e|] eqn:He.
  - apply (isRateLimited_elapsed _ _ _ _ e He).
    apply cleanup_lookup_Some in He as [He _].
    destruct Hexp as [Hn|(e' & He' & Hel)]; congruence.
  - by apply isRateLimited_absent.
Qed.

(** C2. A client whose entry is absent, or whose entry's window has
    elapsed ([now - windowStart >= RATE_LIMIT_WINDOW], one minute), is not
    limited whatever the count of that entry was: [isRateLimited] answers
    [false] and leaves for the client the entry with [count = 1] and
    [windowStart = now]; the POST of such a client (credential
    configured) is not answered 429 and the handler leaves that entry. *)
Theorem elapsed_window_resets (key : option string) (w : world) (st : store)
    (req : request) :
  method req = "POST" →
  env_truthy key = true →
  (st !! getClientIp req = None ∨
   ∃ e, st !! getClientIp req = Some e ∧ window_elapsed (clock w) e) →
  let ip := getClientIp req in
  let r := isRateLimited (clock_sweep w) (clock w) ip st in
  let o := scan key w st req in
  r.1 = false ∧
  r.2 !! ip = Some (mkEntry (clock w) 1) ∧
  status (out_response o) ≠ 429 ∧
  out_store o !! ip = Some (mkEntry (clock w) 1) ∧
  RATE_LIMIT_WINDOW = 60 * 1000.
Proof.
  intros Hm Hk Hexp ip r o.
  pose proof (isRateLimited_fresh (clock_sweep w) (clock w) ip st Hexp) as Hr.
  fold r in Hr.
  destruct (scan_post key w st req Hm Hk) as (Hst & _ & Hok).
  fold ip r o in Hst, Hok. rewrite Hr in *. simpl in *.
  split; [done|]. split; [by rewrite lookup_insert_eq|].
  split; [by apply Hok|]. split; [|done].
  rewrite Hst. by rewrite lookup_insert_eq.
Qed.

Lemma is_post_from_spec (ip : string) (a : world * request) :
  is_post_from ip a = true ↔ method a.2 = "POST" ∧ getClientIp a.2 = ip.
Proof.
  unfold is_post_from. rewrite andb_true_iff.
  by rewrite !String.eqb_eq.
Qed.

(** One request while the client [ip] has an entry whose window, opened
    at [t0], holds both clock readings of the request. *)
Lemma scan_within_window (key : option string) (ip : string) (t0 c : Z)
    (w : world) (req : request) (st : store) :
  env_truthy key = true →
  st !! ip = Some (mkEntry t0 c) →
  in_window t0 w →
  let o := scan key w st req in
  if is_post_from ip (w, req) then
    if RATE_LIMIT_MAX_REQUESTS <=? c then
      out_store o !! ip = Some (mkEntry t0 c) ∧
      out_response o = too_many ∧ out_upstream o = []
    else
      out_store o !! ip = Some (mkEntry t0 (c + 1)) ∧
      status (out_response o) ≠ 429
  else out_store o !! ip = Some (mkEntry t0 c).
Proof.
  intros Hk Hst [Hsw Hck] o.
  assert (Hkeep : cleanupRateLimitStore (clock_sweep w) st !! ip = Some (mkEntry t0 c)).
  { apply cleanup_lookup_Some. split; [done|]. simpl. lia. }
  destruct (is_post_from ip (w, req)) eqn:Hp.
  - apply is_post_from_spec in Hp as [Hm Hip]. simpl in Hm, Hip.
    destruct (scan_post key w st req Hm Hk) as (Hs & Hlim & Hok).
    fold o in Hs, Hlim, Hok. rewrite Hip in Hs, Hlim, Hok.
    rewrite (isRateLimited_within _ _ _ _ _ Hkeep) in Hs, Hlim, Hok by (simpl; lia).
    simpl count in *. simpl windowStart in *.
    destruct (RATE_LIMIT_MAX_REQUESTS <=? c); simpl in Hs, Hlim, Hok.
    + rewrite Hs. destruct (Hlim eq_refl) as [H1 H2]. by rewrite H1, H2.
    + rewrite Hs, lookup_insert_eq. split; [done|]. by apply Hok.
  - destruct (String.eqb_spec (method req) "POST") as [Hm|Hm].
    + assert (Hne : ip ≠ getClientIp req).
      { intros ->.
        assert (is_post_from (getClientIp req) (w, req) = true)
          by (by apply is_post_from_spec).
        congruence. }
      destruct (scan_post key w st req Hm Hk) as (Hs & _ & _).
      fold o in Hs. rewrite Hs. by rewrite isRateLimited_other.
    + subst o. by rewrite scan_not_post.
Qed.

Lemma posts_from_cons (ip : string) (a : world * request)
    (rest : list (world * request)) :
  posts_from ip (a :: rest) =
  (if is_post_from ip a then 1 else 0) + posts_from ip rest.
Proof.
  unfold posts_from. simpl. destruct (is_post_from ip a); simpl; lia.
Qed.

Lemma posts_from_nonneg (ip : string) (l : list (world * request)) :
  0 ≤ posts_from ip l.
Proof. unfold posts_from. lia. Qed.

(** A sequence of requests, every one within the window that the entry
    of [ip] records: what the [i]-th leaves, in terms of the count [c] the
    entry had and of the POSTs of [ip] before it. *)
Lemma serve_within_window (key : option string) (ip : string) (t0 : Z)
    (arrivals : list (world * request)) :
  env_truthy key = true →
  ∀ (st : store) (c : Z),
  st !! ip = Some (mkEntry t0 c) →
  c ≤ RATE_LIMIT_MAX_REQUESTS →
  Forall (λ a, in_window t0 a.1) arrivals →
  ∀ (i : nat) (a : world * request) (o : outcome),
  arrivals !! i = Some a →
  serve prompt JSON_parse key st arrivals !! i = Some o →
  let n := c + posts_from ip (take i arrivals) in
  if is_post_from ip a then
    if RATE_LIMIT_MAX_REQUESTS <=? n then
      out_store o !! ip = Some (mkEntry t0 RATE_LIMIT_MAX_REQUESTS) ∧
      out_response o = too_many ∧ out_upstream o = []
    else
      out_store o !! ip = Some (mkEntry t0 (n + 1)) ∧
      status (out_response o) ≠ 429
  else out_store o !! ip = Some (mkEntry t0 (Z.min RATE_LIMIT_MAX_REQUESTS n)).
Proof.
  intros Hk. induction arrivals as [|[w req] rest IH]; intros st c Hst Hc Hall i a o Ha Ho.
  { by rewrite lookup_nil in Ha. }
  apply Forall_cons in Hall as [Hw Hall]. simpl in Hw.
  pose proof (scan_within_window key ip t0 c w req st Hk Hst Hw) as Hstep.
  simpl in Hstep.
  destruct i as [|i]; simpl in Ha, Ho.
  - injection Ha as <-. injection Ho as <-.
    unfold posts_from. simpl. rewrite Z.add_0_r.
    destruct (is_post_from ip (w, req)); [|by rewrite Z.min_r].
    destruct (Z.leb_spec RATE_LIMIT_MAX_REQUESTS c); [|done].
    by replace RATE_LIMIT_MAX_REQUESTS with c by lia.
  - set (o0 := handler prompt JSON_parse key w st req) in *.
    set (b := is_post_from ip (w, req)) in *.
    set (c' := Z.min RATE_LIMIT_MAX_REQUESTS (c + (if b then 1 else 0))).
    assert (Hst' : out_store o0 !! ip = Some (mkEntry t0 c')).
    { subst c'. destruct b.
      - destruct (Z.leb_spec RATE_LIMIT_MAX_REQUESTS c).
        + destruct Hstep as [H1 _]. rewrite H1. f_equal. f_equal. lia.
        + destruct Hstep as [H1 _]. rewrite H1. f_equal. f_equal. lia.
      - rewrite Hstep. f_equal. f_equal. lia. }
    assert (Hc' : c' ≤ RATE_LIMIT_MAX_REQUESTS) by (subst c'; lia).
    specialize (IH (out_store o0) c' Hst' Hc' Hall i a o Ha Ho).
    simpl in IH.
    change (take (S i) ((w, req) :: rest)) with ((w, req) :: take i rest).
    rewrite posts_from_cons. fold b.
    pose proof (posts_from_nonneg ip (take i rest)) as Hm.
    set (m := posts_from ip (take i rest)) in *.
    assert (Hcase : c' + m = c + ((if b then 1 else 0) + m) ∨
                    (RATE_LIMIT_MAX_REQUESTS ≤ c' + m ∧
                     RATE_LIMIT_MAX_REQUESTS ≤ c + ((if b then 1 else 0) + m))).
    { subst c'. destruct b; lia. }
    cbv zeta.
    destruct Hcase as [Heq|[H1 H2]]; [by rewrite Heq in IH|].
    destruct (is_post_from ip a).
    + destruct (Z.leb_spec RATE_LIMIT_MAX_REQUESTS (c' + m)); [|lia].
      destruct (Z.leb_spec RATE_LIMIT_MAX_REQUESTS (c + ((if b then 1 else 0) + m))); [done|lia].
    + rewrite Z.min_l in IH by done. by rewrite Z.min_l.
Qed.

(** C1. A client opens a window with a POST (no entry, or the window of
    its entry elapsed), the credential being configured; the requests
    that follow, of any client and method, are handled with both clock
    readings inside that window of [RATE_LIMIT_WINDOW] (one minute).
    Then a POST of the client with fewer than [RATE_LIMIT_MAX_REQUESTS]
    (10) POSTs of the client before it in the window is not answered 429
    and is counted; a POST with 10 or more before it (the 11th and later)
    is answered 429 with [Retry-After: 60] and the error body, reaches no
    upstream call, and leaves the stored count at 10. *)
Theorem window_quota (key : option string) (st : store) (ip : string)
    (first : world * request) (rest : list (world * request)) :
  env_truthy key = true →
  is_post_from ip first = true →
  (st !! ip = None ∨ ∃ e, st !! ip = Some e ∧ window_elapsed (clock first.1) e) →
  Forall (λ a, in_window (clock first.1) a.1) rest →
  ∀ (i : nat) (a : world * request) (o : outcome),
  (first :: rest) !! i = Some a →
  is_post_from ip a = true →
  serve prompt JSON_parse key st (first :: rest) !! i = Some o →
  let earlier := posts_from ip (take i (first :: rest)) in
  (earlier < RATE_LIMIT_MAX_REQUESTS →
   status (out_response o) ≠ 429 ∧
   out_store o !! ip = Some (mkEntry (clock first.1) (earlier + 1))) ∧
  (RATE_LIMIT_MAX_REQUESTS ≤ earlier →
   status (out_response o) = 429 ∧
   resp_headers (out_response o) !! "Retry-After" = Some "60" ∧
   resp_body (out_response o) = Some rate_limit_error ∧
   out_upstream o = [] ∧
   out_store o !! ip = Some (mkEntry (clock first.1) RATE_LIMIT_MAX_REQUESTS)) ∧
  RATE_LIMIT_MAX_REQUESTS = 10 ∧ RATE_LIMIT_WINDOW = 60 * 1000.
Proof.
  intros Hk Hfirst Hopen Hall i a o Ha Hp Ho earlier.
  split; [|split; [|done]].
  all: destruct first as [w req]; simpl in *.
  all: pose proof Hfirst as Hf; apply is_post_from_spec in Hf as [Hm Hip];
    simpl in Hm, Hip.
  all: destruct (scan_post key w st req Hm Hk) as (Hst0 & _ & Hnot);
    rewrite Hip, (isRateLimited_fresh _ _ _ _ Hopen) in Hst0, Hnot;
    simpl in Hst0, Hnot; specialize (Hnot eq_refl);
    apply (f_equal (λ m : store, m !! ip)) in Hst0;
    rewrite lookup_insert_eq in Hst0.
  all: destruct i as [|i]; simpl in Ha, Ho.
  - injection Ha as <-. injection Ho as <-. intros _.
    subst earlier. unfold posts_from. simpl. done.
  - intros Hlt.
    pose proof (serve_within_window key ip (clock w) rest Hk _ 1 Hst0
                  ltac:(by compute) Hall i a o Ha Ho) as H.
    simpl in H. rewrite Hp in H.
    subst earlier.
    change (take (S i) ((w, req) :: rest)) with ((w, req) :: take i rest) in *.
    rewrite posts_from_cons, Hfirst in Hlt |- *.
    destruct (Z.leb_spec RATE_LIMIT_MAX_REQUESTS
                (1 + posts_from ip (take i rest))); [lia|].
    destruct H as [H1 H2]. done.
  - injection Ha as <-. injection Ho as <-.
    subst earlier. unfold posts_from. simpl. intros H. by compute in H.
  - intros Hge.
    pose proof (serve_within_window key ip (clock w) rest Hk _ 1 Hst0
                  ltac:(by compute) Hall i a o Ha Ho) as H.
    simpl in H. rewrite Hp in H.
    subst earlier.
    change (take (S i) ((w, req) :: rest)) with ((w, req) :: take i rest) in *.
    rewrite posts_from_cons, Hfirst in Hge.
    destruct (Z.leb_spec RATE_LIMIT_MAX_REQUESTS
                (1 + posts_from ip (take i rest))); [|lia].
    destruct H as (H1 & H2 & H3). rewrite H2. done.
Qed.

End ScanHandler.

Lemma elapsed_window_resets_witness :
  let st : store := {["unknown" := mkEntry 0 10]} in
  let w := mkWorld 60000 60000 (FetchRejected "fetch failed") in
  let req := mkRequest "POST" ∅ None JUndefined in
  let o := handler "" JSON_parse_example (Some "secret") w st req in
  status (out_response o) ≠ 429 ∧
  out_store o !! "unknown" = Some (mkEntry 60000 1).
Proof.
  intros st w req o.
  assert (Hopen : st !! getClientIp req = None ∨
                  ∃ e, st !! getClientIp req = Some e ∧ window_elapsed (clock w) e).
  { right. exists (mkEntry 0 10). split; [reflexivity|]. by vm_compute. }
  destruct (elapsed_window_resets "" JSON_parse_example (Some "secret") w st req
              eq_refl eq_refl Hopen) as (_ & _ & Hstatus & Hentry & _).
  split; [exact Hstatus | exact Hentry].
Defined.

Lemma window_quota_witness :
  let w := mkWorld 5 5 (FetchRejected "fetch failed") in
  let req := mkRequest "POST" ∅ None JUndefined in
  (λ o, status (out_response o)) <$>
    (serve "" JSON_parse_example (Some "secret") ∅ (replicate 11 (w, req)) !! 10%nat)
  = Some 429.
Proof.
  intros w req.
  destruct (serve "" JSON_parse_example (Some "secret") ∅ (replicate 11 (w, req))
              !! 10%nat) as [o|] eqn:Ho; [|vm_compute in Ho; discriminate].
  simpl. f_equal.
  assert (Hall : Forall (λ a : world * request, in_window (clock (w, req).1) a.1)
                   (replicate 10 (w, req))).
  { apply Forall_replicate. split; by vm_compute. }
  refine (proj1 (proj1 (proj2
            (window_quota "" JSON_parse_example (Some "secret") ∅ "unknown"
               (w, req) (replicate 10 (w, req)) eq_refl eq_refl (or_introl eq_refl)
               Hall 10%nat (w, req) o eq_refl eq_refl Ho)) _)).
  by vm_compute.
Defined.

(** ** The sweep of the table *)

Section Sweep.

Variable prompt : string.
Variable JSON_parse : string → result (list (string * jsval)).

(** C3, as the code has it. Before its lookup, a POST with the
    credential configured sweeps the table with the test
    [now - windowStart > RATE_LIMIT_WINDOW]: exactly the entries that
    started more than one window-length (one minute) before the sweep
    are removed, and those with [now - windowStart <= RATE_LIMIT_WINDOW]
    are kept unchanged.  The lookup works on the swept table: the answer
    is the one it gives on a table already swept, the entries of the
    other clients are left as the sweep left them, and an entry of the
    requesting client that the sweep removes is not seen by the lookup,
    which opens a new window. *)
Theorem sweep_before_lookup (key : option string) (w : world) (st : store)
    (req : request) :
  method req = "POST" →
  env_truthy key = true →
  let ip := getClientIp req in
  let o := handler prompt JSON_parse key w st req in
  let swept := cleanupRateLimitStore (clock_sweep w) st in
  (∀ k e,
     swept !! k = Some e ↔
     st !! k = Some e ∧ clock_sweep w - windowStart e ≤ RATE_LIMIT_WINDOW) ∧
  isRateLimited (clock_sweep w) (clock w) ip st
    = isRateLimited (clock_sweep w) (clock w) ip swept ∧
  (∀ k e, k ≠ ip →
     out_store o !! k = Some e ↔
     st !! k = Some e ∧ clock_sweep w - windowStart e ≤ RATE_LIMIT_WINDOW) ∧
  (∀ k e, k ≠ ip → st !! k = Some e →
     RATE_LIMIT_WINDOW < clock_sweep w - windowStart e →
     out_store o !! k = None) ∧
  (∀ e, st !! ip = Some e →
     RATE_LIMIT_WINDOW < clock_sweep w - windowStart e →
     status (out_response o) ≠ 429 ∧
     out_store o !! ip = Some (mkEntry (clock w) 1)).
Proof.
  intros Hm Hk ip o swept.
  destruct (scan_post prompt JSON_parse key w st req Hm Hk) as (Hs & _ & Hok).
  fold ip o in Hs, Hok.
  split; [|split; [|split; [|split]]].
  - intros k e. apply cleanup_lookup_Some.
  - unfold isRateLimited. subst swept. by rewrite cleanup_idempotent.
  - intros k e Hne. rewrite Hs, isRateLimited_other by done.
    apply cleanup_lookup_Some.
  - intros k e Hne Hke Hold. rewrite Hs, isRateLimited_other by done.
    rewrite cleanup_lookup, Hke.
    by rewrite (proj2 (stale_spec _ _) Hold).
  - intros e He Hold.
    assert (Hgone : cleanupRateLimitStore (clock_sweep w) st !! ip = None).
    { rewrite cleanup_lookup, He. by rewrite (proj2 (stale_spec _ _) Hold). }
    rewrite (isRateLimited_absent _ _ _ _ Hgone) in Hs, Hok. simpl in Hs, Hok.
    split; [by apply Hok|]. by rewrite Hs, lookup_insert_eq.
Qed.

End Sweep.

(** C3, as stated, fails: an entry whose window opened at 0 expired at
    60000; at 90000 it expired 30000 ago, less than one window-length, yet
    the sweep of a POST of another client removes it. *)
Lemma sweep_removes_recently_expired :
  let e := mkEntry 0 1 in
  let st : store := {["203.0.113.7" := e]} in
  let w := mkWorld 90000 90000 (FetchRejected "fetch failed") in
  let req := mkRequest "POST" {["x-real-ip" := "198.51.100.2"]} None JUndefined in
  let o := handler "" JSON_parse_example (Some "secret") w st req in
  st !! "203.0.113.7" = Some e ∧
  ¬ expired_over_a_window_ago (clock_sweep w) e ∧
  out_store o !! "203.0.113.7" = None.
Proof.
  split; [reflexivity|]. split; [|vm_compute; reflexivity].
  unfold expired_over_a_window_ago. simpl. unfold RATE_LIMIT_WINDOW. lia.
Qed.

Lemma sweep_before_lookup_witness :
  let st : store := {["203.0.113.7" := mkEntry 0 1]} in
  let w := mkWorld 90000 90000 (FetchRejected "fetch failed") in
  let req := mkRequest "POST" {["x-real-ip" := "198.51.100.2"]} None JUndefined in
  let o := handler "" JSON_parse_example (Some "secret") w st req in
  out_store o !! "203.0.113.7" = None.
Proof.
  intros st w req o.
  refine (proj1 (proj2 (proj2 (proj2
            (sweep_before_lookup "" JSON_parse_example (Some "secret")
               w st req _ _))))
            "203.0.113.7" (mkEntry 0 1) _ _ _).
  - reflexivity.
  - reflexivity.
  - vm_compute. discriminate.
  - reflexivity.
  - vm_compute. reflexivity.
Defined.

(** ** Configuration and CORS *)

Lemma env_truthy_present (key : option string) :
  env_truthy key = true ↔ credential_present key.
Proof.
  unfold credential_present. destruct key as [k|]; simpl.
  - rewrite negb_true_iff. split.
    + intros H. exists k. split; [done|]. by apply String.eqb_neq.
    + intros (k' & [= <-] & Hne). by apply String.eqb_neq.
  - split; [discriminate|]. by intros (k' & ? & _).
Qed.

Section Responses.

Variable prompt : string.
Variable JSON_parse : string → result (list (string * jsval)).

Lemma error_response_headers (message : string) (res : response) :
  resp_headers (error_response message res) = resp_headers res.
Proof.
  unfold error_response.
  destruct (includes "Gemini API error" message); [done|].
  by destruct (includes "fetch" message).
Qed.

(** The headers of a response of the scan handler are the ones
    [setCorsHeaders] sets, with [Retry-After] added on the 429. *)
Lemma scan_headers (key : option string) (w : world) (st : store) (req : request) :
  let hs := resp_headers (out_response (handler prompt JSON_parse key w st req)) in
  hs = resp_headers (setCorsHeaders fresh_response) ∨
  hs = <["Retry-After" := "60"]> (resp_headers (setCorsHeaders fresh_response)).
Proof.
  unfold handler, handler_try.
  destruct (String.eqb (method req) "OPTIONS"); [by left|].
  destruct (String.eqb (method req) "POST"); cbn; [|by left].
  destruct (env_truthy key); cbn; [|by left].
  destruct (isRateLimited _ _ _ _) as [[|] st']; cbn; [by right|].
  destruct (destructure_body (body req)) as [[img mime]|m]; cbn;
    [|left; apply error_response_headers].
  destruct (validateImagePayload img mime) as [v|m]; cbn;
    [|left; apply error_response_headers].
  destruct (valid v); cbn; [|by left].
  destruct (callGeminiVision _ _ _ _ _) as [sent [g|m]]; cbn;
    [by left | left; apply error_response_headers].
Qed.

(** C9. Every response of either handler, whatever the method, the
    configuration, the table and the reply of the upstream service,
    carries [Access-Control-Allow-Origin] with the fixed origin,
    [Access-Control-Allow-Headers: Content-Type, Authorization] and
    [Vary: Origin] (and the methods of its endpoint); an OPTIONS request
    to either endpoint is answered 200 without a body, whether or not the
    credential is configured, and leaves the table alone. *)
Theorem cors_on_every_response (key : option string) (w : world) (st : store)
    (req : request) :
  carries_cors (Health.handler key req) ∧
  resp_headers (Health.handler key req) !! "Access-Control-Allow-Methods"
    = Some "GET, OPTIONS" ∧
  carries_cors (out_response (handler prompt JSON_parse key w st req)) ∧
  resp_headers (out_response (handler prompt JSON_parse key w st req))
    !! "Access-Control-Allow-Methods" = Some "POST, OPTIONS" ∧
  (∀ hs addr b,
     let options := mkRequest "OPTIONS" hs addr b in
     status (Health.handler key options) = 200 ∧
     resp_body (Health.handler key options) = None ∧
     status (out_response (handler prompt JSON_parse key w st options)) = 200 ∧
     resp_body (out_response (handler prompt JSON_parse key w st options)) = None ∧
     out_store (handler prompt JSON_parse key w st options) = st ∧
     out_upstream (handler prompt JSON_parse key w st options) = []).
Proof.
  assert (Hh : resp_headers (Health.handler key req)
               = resp_headers (Health.setCorsHeaders fresh_response)).
  { unfold Health.handler.
    destruct (String.eqb (method req) "OPTIONS"); [done|].
    by destruct (negb (String.eqb (method req) "GET")). }
  unfold carries_cors. rewrite !Hh.
  split; [by vm_compute|]. split; [by vm_compute|].
  destruct (scan_headers key w st req) as [Hs|Hs]; cbv zeta in Hs; rewrite !Hs.
  - split; [by vm_compute|]. split; [by vm_compute|]. done.
  - split; [by vm_compute|]. split; [by vm_compute|]. done.
Qed.

(** C7. The health endpoint answers a GET with
    [{ ok: true, provider: "gemini", configured }], where [configured] is
    [true] exactly when the credential is present in the configuration;
    when it is absent, the scan endpoint answers a POST 500 with the
    configuration error, before the rate limiter or anything else: the
    table is left as it was and nothing is sent upstream. *)
Theorem credential_reporting (key : option string) (hs : gmap string string)
    (addr : option string) (b : jsval) (w : world) (st : store) :
  (∃ configured : bool,
     Health.handler key (mkRequest "GET" hs addr b) =
       send_json 200
         (JObj [("ok", JBool true); ("provider", JStr "gemini");
                ("configured", JBool configured)])
         (Health.setCorsHeaders fresh_response) ∧
     (configured = true ↔ credential_present key)) ∧
  (¬ credential_present key →
   handler prompt JSON_parse key w st (mkRequest "POST" hs addr b) =
     mkOutcome
       (send_json 500
          (JObj [("error", JStr "API not configured");
                 ("message", JStr "GEMINI_API_KEY environment variable is not set")])
          (setCorsHeaders fresh_response))
       st []).
Proof.
  split.
  - exists (env_truthy key). split; [done|]. apply env_truthy_present.
  - intros Hno. rewrite <- env_truthy_present in Hno.
    apply not_true_is_false in Hno.
    unfold handler, handler_try. cbn. by rewrite Hno.
Qed.

End Responses.

Lemma credential_reporting_witness :
  handler "" JSON_parse_example None (mkWorld 5 5 (FetchRejected "fetch failed"))
    {["203.0.113.7" := mkEntry 0 10]} (mkRequest "POST" ∅ None JUndefined) =
  mkOutcome
    (send_json 500
       (JObj [("error", JStr "API not configured");
              ("message", JStr "GEMINI_API_KEY environment variable is not set")])
       (setCorsHeaders fresh_response))
    {["203.0.113.7" := mkEntry 0 10]} [].
Proof.
  refine (proj2 (credential_reporting "" JSON_parse_example None ∅ None JUndefined
                   (mkWorld 5 5 (FetchRejected "fetch failed"))
                   {["203.0.113.7" := mkEntry 0 10]}) _).
  intros (k & Hk & _). discriminate Hk.
Defined.

(** ** Errors of the upstream call *)

Lemma substring_prefix_length (n : nat) (s : string) :
  (String.length (String.substring 0 n s) ≤ n)%nat ∧
  ∃ rest, s = String.substring 0 n s ++ rest.
Proof.
  revert s. induction n as [|n IH]; intros s.
  - split; [by destruct s|]. exists s. by destruct s.
  - destruct s as [|c s]; simpl.
    + split; [lia|]. by exists "".
    + destruct (IH s) as [Hlen [rest Hrest]]. split; [lia|].
      exists rest. change (String c s = String c (String.substring 0 n s ++ rest)).
      congruence.
Qed.

Section Errors.

Variable prompt : string.
Variable JSON_parse : string → result (list (string * jsval)).

(** C8. When the [try] block of a POST throws, the response follows the
    message of the error: one that mentions the upstream-error condition
    gives 502 "External API error" with the message; otherwise one that
    indicates a network failure gives 500 "Network error"; any other gives
    500 "Internal server error".  The error that [callGeminiVision] throws
    on a reply without success status mentions the condition, and carries
    the status in decimal and the first 200 characters, at most, of the
    body. *)
Theorem exceptions_to_statuses (key : option string) (w : world) (st st' : store)
    (req : request) (sent : list upstream_request) (m : string) :
  method req = "POST" →
  handler_try prompt JSON_parse key w st req (setCorsHeaders fresh_response)
    = (st', sent, Throw m) →
  let res := out_response (handler prompt JSON_parse key w st req) in
  (mentions_upstream_error m →
   status res = 502 ∧
   resp_body res =
     Some (JObj [("error", JStr "External API error"); ("message", JStr m)])) ∧
  (¬ mentions_upstream_error m → indicates_network_failure m →
   status res = 500 ∧
   resp_body res =
     Some (JObj [("error", JStr "Network error");
                 ("message", JStr "Failed to connect to Gemini API")])) ∧
  (¬ mentions_upstream_error m → ¬ indicates_network_failure m →
   status res = 500 ∧
   resp_body res =
     Some (JObj [("error", JStr "Internal server error");
                 ("message", JStr "An unexpected error occurred")])) ∧
  (∀ code text json img mime apiKey,
     response_ok code = false →
     ∃ excerpt,
       (callGeminiVision prompt (FetchResponse code (Ok text) json) img mime apiKey).2
         = Throw ("Gemini API error (" ++ decimal code ++ "): " ++ excerpt) ∧
       (String.length excerpt ≤ 200)%nat ∧
       (∃ rest, text = excerpt ++ rest) ∧
       mentions_upstream_error
         ("Gemini API error (" ++ decimal code ++ "): " ++ excerpt)).
Proof.
  intros Hm Htry res.
  assert (Hres : res = error_response m (setCorsHeaders fresh_response)).
  { subst res. unfold handler. rewrite Hm, Htry. reflexivity. }
  rewrite Hres. unfold error_response, mentions_upstream_error,
    indicates_network_failure.
  split; [|split; [|split]].
  - intros ->. done.
  - intros H1 ->. by destruct (includes "Gemini API error" m).
  - intros H1 H2.
    destruct (includes "Gemini API error" m); [done|].
    by destruct (includes "fetch" m).
  - intros code text json img mime apiKey Hok.
    exists (String.substring 0 200 text).
    destruct (substring_prefix_length 200 text) as [Hlen Hrest].
    split; [|split; [done|split; [done|reflexivity]]].
    unfold callGeminiVision. simpl. by rewrite Hok.
Qed.

End Errors.

Lemma exceptions_to_statuses_witness :
  let w := mkWorld 5 5 (FetchResponse 503 (Ok "overloaded") (Throw "Unexpected token")) in
  let req :=
    mkRequest "POST" ∅ None
      (JObj [("imageBase64", JStr "AAAA"); ("mimeType", JStr "image/png")]) in
  let res := out_response (handler "" JSON_parse_example (Some "secret") w ∅ req) in
  status res = 502 ∧
  resp_body res =
    Some (JObj [("error", JStr "External API error");
                ("message", JStr "Gemini API error (503): overloaded")]).
Proof.
  intros w req res.
  refine (proj1 (exceptions_to_statuses "" JSON_parse_example (Some "secret") w ∅
                   (isRateLimited 5 5 "unknown" ∅).2 req
                   [mkUpstream
                      (GEMINI_API_BASE ++ "/" ++ GEMINI_MODEL
                       ++ ":generateContent?key=secret")
                      (gemini_payload "" "AAAA" (JStr "image/png"))]
                   "Gemini API error (503): overloaded" _ _) _).
  - reflexivity.
  - vm_compute. reflexivity.
  - vm_compute. reflexivity.
Defined.

(** ** Normalisation of the reply *)

Lemma get_prop_message (v : jsval) (name : string) (m : string) :
  get_prop v name = Throw m → m ≠ "".
Proof. destruct v; simpl; intros [= <-]; discriminate. Qed.

Section Normalisation.

Variable prompt : string.
Variable JSON_parse : string → result (list (string * jsval)).

(** The SyntaxError of [JSON.parse] has a message. *)
Hypothesis JSON_parse_message : ∀ s m, JSON_parse s = Throw m → m ≠ "".

Abbreviation parse_try := (parseGeminiResponse_try JSON_parse).
Abbreviation parse := (parseGeminiResponse JSON_parse).

(** Whatever the [try] block throws has a message that is not empty. *)
Lemma parse_try_message (v : jsval) (m : string) :
  parse_try v = Throw m → m ≠ "".
Proof.
  unfold parseGeminiResponse_try.
  destruct (get_prop v "candidates") as [c|m'] eqn:Hc; cbn.
  2:{ intros [= <-]. by apply get_prop_message in Hc. }
  destruct (negb (truthy c) || is_zero (get_length c)); [by intros [= <-]|].
  destruct (negb (truthy _) || is_zero (get_length _)); [by intros [= <-]|].
  destruct (js_or _ _); try (by intros [= <-]).
  destruct (match_json_object _) as [j|]; [|by intros [= <-]].
  destruct (JSON_parse j) as [props|m'] eqn:Hj; cbn; [discriminate|].
  intros [= <-]. by apply JSON_parse_message in Hj.
Qed.

(** C6. For every value of the upstream reply, [parseGeminiResponse]
    returns: either the [try] block gave the normalised object, or it
    threw and the result is the fallback
    [{ detected: true, items: [], notes: ..., parseError: message }] with
    a message that is not empty; so it is for missing candidates, for
    missing parts, and for a text without a JSON object.  The handler
    answers 200 with the result when the upstream reply was a success
    read as that value. *)
Theorem normalisation_never_raises (v : jsval) :
  ((∃ parsed, parse_try v = Ok parsed ∧ parse v = parsed) ∨
   (∃ m, parse_try v = Throw m ∧ m ≠ "" ∧
         parse v =
           JObj [("detected", JBool true); ("items", JArr []);
                 ("notes",
                  JStr "Model returned non-JSON output; please confirm manually.");
                 ("parseError", JStr m)])) ∧
  (∀ candidates,
     get_prop v "candidates" = Ok candidates →
     let parts :=
       get_prop_opt (get_prop_opt (get_first candidates) "content") "parts" in
     (truthy candidates = false ∨ is_zero (get_length candidates) = true →
      parse v = fallback "No candidates in Gemini response") ∧
     (truthy candidates = true → is_zero (get_length candidates) = false →
      (truthy parts = false ∨ is_zero (get_length parts) = true →
       parse v = fallback "No parts in Gemini response") ∧
      (truthy parts = true → is_zero (get_length parts) = false →
       ∀ text,
         js_or (get_prop_opt (get_first parts) "text") (JStr "") = JStr text →
         match_json_object (remove_fence "```" (remove_fence "```json" text)) = None →
         parse v = fallback "No JSON object found in response"))) ∧
  (∀ key w st req fields validation code text,
     method req = "POST" →
     env_truthy key = true →
     (isRateLimited (clock_sweep w) (clock w) (getClientIp req) st).1 = false →
     destructure_body (body req) = Ok fields →
     validateImagePayload fields.1 fields.2 = Ok validation →
     valid validation = true →
     upstream w = FetchResponse code text (Ok v) →
     response_ok code = true →
     out_response (handler prompt JSON_parse key w st req) =
       send_json 200 (parse v) (setCorsHeaders fresh_response)).
Proof.
  split; [|split].
  - unfold parseGeminiResponse.
    destruct (parse_try v) as [parsed|m] eqn:Ht.
    + left. by exists parsed.
    + right. exists m. split; [done|]. split; [|done].
      by apply (parse_try_message v).
  - intros candidates Hc parts. unfold parseGeminiResponse, parseGeminiResponse_try.
    rewrite Hc. cbn. fold parts. split.
    + intros [H| ->]; [by rewrite H|]. by rewrite orb_true_r.
    + intros -> ->. cbn. split.
      * intros [H| ->]; [by rewrite H|]. by rewrite orb_true_r.
      * intros -> -> text -> ->. done.
  - intros key w st req [img mime] validation code text
      Hm Hk Hlim Hbody Hval Hvalid Hup Hok.
    unfold handler, handler_try. rewrite Hm, Hk. cbn.
    destruct (isRateLimited _ _ _ _) as [limited st']. simpl in Hlim. subst limited.
    rewrite Hbody. cbn. simpl in Hval. rewrite Hval. cbn. rewrite Hvalid. cbn.
    unfold callGeminiVision. rewrite Hup, Hok. reflexivity.
Qed.

End Normalisation.

Lemma normalisation_never_raises_witness :
  let reply :=
    JObj [("candidates",
           JArr [JObj [("content",
                        JObj [("parts", JArr [JObj [("text", JStr "no food here")]])])]])] in
  let w := mkWorld 5 5 (FetchResponse 200 (Ok "") (Ok reply)) in
  let req :=
    mkRequest "POST" ∅ None
      (JObj [("imageBase64", JStr "AAAA"); ("mimeType", JStr "image/png")]) in
  out_response (handler "" JSON_parse_example (Some "secret") w ∅ req) =
  send_json 200 (fallback "No JSON object found in response")
    (setCorsHeaders fresh_response).
Proof.
  intros reply w req.
  assert (Hmsg : ∀ s m, JSON_parse_example s = Throw m → m ≠ "").
  { intros s m. unfold JSON_parse_example.
    destruct (String.eqb s "{}"); [discriminate|]. intros [= <-]. discriminate. }
  refine (proj2 (proj2 (normalisation_never_raises "" JSON_parse_example Hmsg reply))
            (Some "secret") w ∅ req
            (JStr "AAAA", JStr "image/png")
            (mkValidation true [] "AAAA") 200 (Ok "") _ _ _ _ _ _ _ _);
    vm_compute; reflexivity.
Defined.

(** ** The data-URL prefix *)

Lemma strip_literal_app (p s : string) : strip_literal p (p ++ s) = Some s.
Proof.
  induction p as [|c p IH]; [by destruct s|].
  change (String c p ++ s) with (String c (p ++ s)). simpl.
  by rewrite Ascii.eqb_refl.
Qed.

Lemma strip_literal_Some (p s r : string) :
  strip_literal p s = Some r → s = p ++ r.
Proof.
  revert s. induction p as [|c p IH]; intros s; simpl.
  - intros [= <-]. reflexivity.
  - destruct s as [|c' s]; [discriminate|].
    destruct (Ascii.eqb_spec c c') as [->|]; [|discriminate].
    intros H. apply IH in H as ->. reflexivity.
Qed.

Lemma string_forall_app (f : ascii → bool) (a b : string) :
  string_forall f (a ++ b) = string_forall f a && string_forall f b.
Proof.
  induction a as [|c a IH]; [done|].
  change (String c a ++ b) with (String c (a ++ b)). simpl.
  by rewrite IH, andb_assoc.
Qed.

Lemma string_forall_impl (f g : ascii → bool) (s : string) :
  (∀ c, f c = true → g c = true) →
  string_forall f s = true → string_forall g s = true.
Proof.
  intros Hfg. induction s as [|c s IH]; [done|]. simpl.
  rewrite !andb_true_iff. intros [Hc Hs]. split; [by apply Hfg | by apply IH].
Qed.

Lemma drop_while_app (f : ascii → bool) (a b : string) :
  string_forall f a = true →
  drop_while f (a ++ b) = drop_while f b.
Proof.
  induction a as [|c a IH]; [done|].
  change (String c a ++ b) with (String c (a ++ b)). simpl.
  rewrite andb_true_iff. intros [-> Ha]. by apply IH.
Qed.

Lemma string_length_app (a b : string) :
  String.length (a ++ b) = (String.length a + String.length b)%nat.
Proof.
  induction a as [|c a IH]; [done|].
  change (String c a ++ b) with (String c (a ++ b)). simpl. by rewrite IH.
Qed.

Lemma base64_not_line_terminator (c : ascii) :
  is_base64_char c = true → negb (is_line_terminator c) = true.
Proof.
  destruct c as [[] [] [] [] [] [] [] []]; vm_compute; congruence.
Qed.

(** The expression matches a payload behind a prefix whose subtype is a
    run of letters and [+]. *)
Lemma match_data_url_wrapped (subtype payload : string) :
  subtype ≠ "" → string_forall is_subtype_char subtype = true →
  payload ≠ "" → string_forall is_base64_char payload = true →
  match_data_url (data_url subtype payload) = Some payload.
Proof.
  intros Hs Hsub Hp Hpay. unfold match_data_url, data_url.
  rewrite strip_literal_app. cbn [mbind option_bind].
  rewrite (drop_while_app _ _ _ Hsub).
  change (drop_while is_subtype_char (";base64," ++ payload))
    with (";base64," ++ payload).
  rewrite strip_literal_app. cbn [mbind option_bind].
  rewrite !string_length_app.
  destruct (Nat.ltb_spec (String.length ";base64," + String.length payload)
              (String.length subtype + (String.length ";base64," + String.length payload)))
    as [_|Hge].
  - rewrite (string_forall_impl _ _ _ base64_not_line_terminator Hpay).
    destruct payload; [done|reflexivity].
  - destruct subtype; [done|]. simpl in Hge. lia.
Qed.

(** It does not match a payload of the base64 alphabet, which holds no
    colon. *)
Lemma match_data_url_raw (payload : string) :
  string_forall is_base64_char payload = true →
  match_data_url payload = None.
Proof.
  intros Hpay. unfold match_data_url.
  destruct (strip_literal "data:image/" payload) as [rest|] eqn:Hrest; [|done].
  apply strip_literal_Some in Hrest. subst payload.
  rewrite string_forall_app in Hpay. vm_compute in Hpay. discriminate.
Qed.

(** C4, for the payloads and prefixes the expression of
    [stripDataUrlPrefix] accepts. For every payload that is not empty and
    is made of characters of the base64 alphabet, every subtype that is a
    non-empty run of letters and [+], and every [mimeType]: the payload
    behind the prefix [data:image/<subtype>;base64,] and the payload by
    itself are stripped to the same string, get the same estimated size,
    and get the same result of validation (the same errors, the same
    [valid], the same [cleanBase64]). *)
Theorem data_url_prefix_transparent (subtype payload : string) (mimeType : jsval) :
  subtype ≠ "" → string_forall is_subtype_char subtype = true →
  payload ≠ "" → string_forall is_base64_char payload = true →
  stripDataUrlPrefix (JStr (data_url subtype payload)) = Ok payload ∧
  stripDataUrlPrefix (JStr payload) = Ok payload ∧
  estimated_size_of (JStr (data_url subtype payload))
    = estimated_size_of (JStr payload) ∧
  validateImagePayload (JStr (data_url subtype payload)) mimeType
    = validateImagePayload (JStr payload) mimeType.
Proof.
  intros Hs Hsub Hp Hpay.
  assert (Hw : stripDataUrlPrefix (JStr (data_url subtype payload)) = Ok payload).
  { unfold stripDataUrlPrefix.
    by rewrite (match_data_url_wrapped _ _ Hs Hsub Hp Hpay). }
  assert (Hr : stripDataUrlPrefix (JStr payload) = Ok payload).
  { unfold stripDataUrlPrefix. rewrite (match_data_url_raw _ Hpay).
    destruct payload; [done|reflexivity]. }
  split; [done|]. split; [done|]. split.
  - unfold estimated_size_of. by rewrite Hw, Hr.
  - unfold validateImagePayload. rewrite Hw, Hr.
    replace (truthy (JStr payload)) with true by (by destruct payload).
    reflexivity.
Qed.

Lemma data_url_prefix_transparent_witness :
  validateImagePayload (JStr (data_url "svg+xml" "QUJD")) (JStr "image/png")
  = validateImagePayload (JStr "QUJD") (JStr "image/png").
Proof.
  refine (proj2 (proj2 (proj2
            (data_url_prefix_transparent "svg+xml" "QUJD" (JStr "image/png")
               _ _ _ _)))); (discriminate || reflexivity).
Defined.

(** C4, as stated, fails. The empty payload by itself is rejected
    ([imageBase64 is required]) while behind the prefix it is accepted,
    the prefix being taken for the image; and a prefix whose subtype has a
    character that is neither a letter nor [+] is not stripped, so the
    estimated sizes differ. *)
Lemma data_url_prefix_not_transparent :
  validateImagePayload (JStr (data_url "png" "")) (JStr "image/png")
    = Ok (mkValidation true [] "data:image/png;base64,") ∧
  validateImagePayload (JStr "") (JStr "image/png")
    = Ok (mkValidation false ["imageBase64 is required"] "") ∧
  (∃ a b,
     estimated_size_of (JStr (data_url "x-icon" "QUJD")) = Ok a ∧
     estimated_size_of (JStr "QUJD") = Ok b ∧
     ¬ (a == b)%Q).
Proof.
  split; [reflexivity|]. split; [reflexivity|].
  eexists _, _. split; [reflexivity|]. split; [reflexivity|].
  vm_compute. discriminate.
Qed.

(** ** Validation of the request *)

Section Validation.

Variable prompt : string.
Variable JSON_parse : string → result (list (string * jsval)).

(** For an [imageBase64] that is a string or is falsy, validation returns,
    and it records an error exactly when [mimeType] is not one of the two
    allowed strings, or [imageBase64] is falsy, or the estimated size of
    the stripped payload is over 10 MiB. *)
Lemma validation_of_strings (imageBase64 mimeType : jsval) :
  truthy imageBase64 = false ∨ (∃ s, imageBase64 = JStr s) →
  ∃ v clean,
    validateImagePayload imageBase64 mimeType = Ok v ∧
    stripDataUrlPrefix imageBase64 = Ok clean ∧
    cleanBase64 v = clean ∧
    (valid v = false ↔
     (mimeType ≠ JStr "image/jpeg" ∧ mimeType ≠ JStr "image/png") ∨
     truthy imageBase64 = false ∨
     (inject_Z (10 * 1024 * 1024) < estimatedSizeBytes clean)%Q).
Proof.
  intros Himg.
  assert (Hstrip : ∃ clean, stripDataUrlPrefix imageBase64 = Ok clean).
  { unfold stripDataUrlPrefix. destruct Himg as [->|[s ->]]; [by eexists|].
    destruct (negb (truthy (JStr s))); [by eexists|].
    destruct (match_data_url s); by eexists. }
  destruct Hstrip as [clean Hclean].
  unfold validateImagePayload. rewrite Hclean. cbn [rbind].
  eexists _, clean. split; [reflexivity|]. split; [done|]. split; [done|].
  cbn [valid].
  assert (Hmime : negb (truthy mimeType) || negb (allowed_includes mimeType) = true ↔
                  mimeType ≠ JStr "image/jpeg" ∧ mimeType ≠ JStr "image/png").
  { destruct mimeType as [| |b|q|s|l|l]; simpl; rewrite ?orb_true_r;
      try (split; [intros _; split; discriminate | reflexivity]).
    destruct (String.eqb_spec s "image/jpeg") as [->|Hj];
      [simpl; split; [discriminate | intros [H _]; by destruct H]|].
    destruct (String.eqb_spec s "image/png") as [->|Hp];
      [simpl; split; [discriminate | intros [_ H]; by destruct H]|].
    simpl. rewrite orb_true_r. split; [|reflexivity].
    intros _. split; congruence. }
  assert (Hsize : Qgtb (estimatedSizeBytes clean) maxSizeBytes = true ↔
                  (inject_Z (10 * 1024 * 1024) < estimatedSizeBytes clean)%Q).
  { unfold Qgtb, maxSizeBytes, maxSizeMB. rewrite negb_true_iff.
    rewrite <- not_true_iff_false, Qle_bool_iff. split; [apply Qnot_le_lt | apply Qlt_not_le]. }
  unfold push_if.
  destruct (negb (truthy mimeType) || negb (allowed_includes mimeType)) eqn:E1;
    destruct (negb (truthy imageBase64)) eqn:E2;
    destruct (Qgtb (estimatedSizeBytes clean) maxSizeBytes) eqn:E3;
    cbn; rewrite ?negb_true_iff, ?negb_false_iff in E2;
    (split; [intros H; try discriminate H; tauto|]);
    intros [H|[H|H]]; try reflexivity;
    try (apply Hmime in H; discriminate H);
    try (apply Hsize in H; discriminate H);
    congruence.
Qed.

(** For such a request, past the configuration check and the rate
    limiter, the handler answers 400 with the list of the recorded errors
    and sends nothing upstream exactly when validation recorded an
    error. *)
Lemma validation_decides_400 (key : option string) (w : world) (st : store)
    (req : request) (imageBase64 mimeType : jsval) (v : validation) :
  method req = "POST" →
  env_truthy key = true →
  (isRateLimited (clock_sweep w) (clock w) (getClientIp req) st).1 = false →
  destructure_body (body req) = Ok (imageBase64, mimeType) →
  validateImagePayload imageBase64 mimeType = Ok v →
  let o := handler prompt JSON_parse key w st req in
  (valid v = false →
   out_response o =
     send_json 400 (validation_error (errors v)) (setCorsHeaders fresh_response) ∧
   out_upstream o = []) ∧
  (valid v = true → status (out_response o) ≠ 400 ∧ out_upstream o ≠ []).
Proof.
  intros Hm Hk Hlim Hbody Hval o. subst o.
  unfold handler, handler_try. rewrite Hm, Hk. cbn.
  destruct (isRateLimited _ _ _ _) as [limited st']. simpl in Hlim. subst limited.
  rewrite Hbody. cbn. rewrite Hval. cbn.
  split; intros ->; cbn; [done|].
  destruct (callGeminiVision _ _ _ _ _) as [sent [g|m]]; cbn; [done|].
  destruct (error_response_status m (setCorsHeaders fresh_response)) as [->| ->]; done.
Qed.

End Validation.

(** C5, where the code departs from it. A POST whose [imageBase64] is a
    number and whose [mimeType] is not allowed records the error of the
    [mimeType], then throws inside [stripDataUrlPrefix] (a number has no
    [match]); the handler answers 500 "Internal server error", not 400
    with the list.  A POST without a body throws at the destructuring and
    is answered 500 as well. *)
Lemma scan_answers_500_to_malformed_image :
  let w := mkWorld 5 5 (FetchRejected "fetch failed") in
  let internal :=
    Some (JObj [("error", JStr "Internal server error");
                ("message", JStr "An unexpected error occurred")]) in
  let numeric :=
    mkRequest "POST" ∅ None
      (JObj [("imageBase64", JNum 12345); ("mimeType", JStr "image/gif")]) in
  let bodiless := mkRequest "POST" ∅ None JUndefined in
  validateImagePayload (JNum 12345) (JStr "image/gif")
    = Throw "imageBase64.match is not a function" ∧
  status (out_response (handler "" JSON_parse_example (Some "secret") w ∅ numeric)) = 500 ∧
  resp_body (out_response (handler "" JSON_parse_example (Some "secret") w ∅ numeric))
    = internal ∧
  status (out_response (handler "" JSON_parse_example (Some "secret") w ∅ bodiless)) = 500 ∧
  resp_body (out_response (handler "" JSON_parse_example (Some "secret") w ∅ bodiless))
    = internal.
Proof. repeat split; vm_compute; reflexivity. Qed.

(** ** The client identifier *)

Lemma or_else_nonempty (a : option string) (b : string) :
  b ≠ "" → or_else a b ≠ "".
Proof.
  intros Hb. unfold or_else. destruct a as [s|]; [|done].
  destruct (String.eqb_spec s ""); done.
Qed.

Lemma before_comma_app (h t : string) :
  before_comma (h ++ "," ++ t) = before_comma h.
Proof.
  induction h as [|c h IH]; [reflexivity|].
  change (String c h ++ "," ++ t) with (String c (h ++ "," ++ t)). simpl.
  destruct (Ascii.eqb c ","); [reflexivity | by rewrite IH].
Qed.

Lemma before_comma_free (h : string) : free_of "," (before_comma h).
Proof.
  unfold free_of. induction h as [|c h IH]; [reflexivity|]. simpl.
  destruct (Ascii.eqb c ",") eqn:Hc; [reflexivity|]. simpl. by rewrite Hc.
Qed.

Lemma drop_while_forall (f g : ascii → bool) (s : string) :
  string_forall g s = true → string_forall g (drop_while f s) = true.
Proof.
  induction s as [|c s IH]; [done|]. simpl.
  destruct (f c); [|done]. rewrite andb_true_iff. intros [_ H]. by apply IH.
Qed.

Lemma trim_end_forall (g : ascii → bool) (s : string) :
  string_forall g s = true → string_forall g (trim_end s) = true.
Proof.
  induction s as [|c s IH]; [done|]. simpl.
  rewrite andb_true_iff. intros [Hc Hs]. specialize (IH Hs).
  destruct (trim_end s) as [|c' s'].
  - destruct (is_space c); simpl; [done | by rewrite Hc].
  - simpl in *. by rewrite Hc, IH.
Qed.

Lemma drop_while_first (f : ascii → bool) (s : string) (c : ascii) :
  first_char (drop_while f s) = Some c → f c = false.
Proof.
  induction s as [|a s IH]; [discriminate|]. simpl.
  destruct (f a) eqn:Ha; [done|]. simpl. by intros [= <-].
Qed.

Lemma trim_end_first (s : string) (c : ascii) :
  first_char (trim_end s) = Some c → first_char s = Some c.
Proof.
  destruct s as [|a s]; [discriminate|]. simpl.
  destruct (trim_end s); [destruct (is_space a); [discriminate|]|]; done.
Qed.

Lemma trim_end_last (s : string) (c : ascii) :
  last_char (trim_end s) = Some c → is_space c = false.
Proof.
  induction s as [|a s IH]; [discriminate|]. simpl.
  destruct (trim_end s) as [|b s'] eqn:Ht.
  - destruct (is_space a) eqn:Ha; [discriminate|]. simpl. by intros [= <-].
  - intros H. apply IH. exact H.
Qed.

(** X1. The identifier [getClientIp] gives is never the empty string: a
    header that is present but empty counts as absent, and without any
    address the identifier is ["unknown"]. *)
Theorem client_id_never_empty (req : request) :
  getClientIp req ≠ "" ∧
  (or_else (headers req !! "x-forwarded-for") "" = "" →
   or_else (headers req !! "x-real-ip") "" = "" →
   or_else (remoteAddress req) "" = "" →
   getClientIp req = "unknown").
Proof.
  split.
  - unfold getClientIp. by do 3 apply or_else_nonempty.
  - unfold getClientIp, or_else.
    destruct (headers req !! "x-forwarded-for") as [h|]; simpl.
    + destruct (String.eqb_spec h "") as [->|]; [|done]. simpl.
      destruct (headers req !! "x-real-ip") as [r|]; simpl.
      * destruct (String.eqb_spec r "") as [->|]; [|done].
        destruct (remoteAddress req) as [a|]; [|done].
        by destruct (String.eqb_spec a "").
      * destruct (remoteAddress req) as [a|]; [|done].
        by destruct (String.eqb_spec a "").
    + destruct (headers req !! "x-real-ip") as [r|]; simpl.
      * destruct (String.eqb_spec r "") as [->|]; [|done].
        destruct (remoteAddress req) as [a|]; [|done].
        by destruct (String.eqb_spec a "").
      * destruct (remoteAddress req) as [a|]; [|done].
        by destruct (String.eqb_spec a "").
Qed.

Lemma client_id_never_empty_witness :
  getClientIp (mkRequest "POST" {["x-real-ip" := ""]} None JNull) = "unknown".
Proof.
  refine (proj2 (client_id_never_empty
                   (mkRequest "POST" {["x-real-ip" := ""]} None JNull)) _ _ _);
    reflexivity.
Defined.

(** X2. When the first entry of the [x-forwarded-for] list, trimmed, is
    not empty, it is the identifier, whatever [x-real-ip] and the address
    of the connection are; it holds no comma and neither starts nor ends
    with white space. *)
Theorem forwarded_for_takes_precedence (req : request) (h : string) :
  headers req !! "x-forwarded-for" = Some h →
  trim (before_comma h) ≠ "" →
  getClientIp req = trim (before_comma h) ∧
  free_of "," (getClientIp req) ∧
  (∀ c, first_char (getClientIp req) = Some c → is_space c = false) ∧
  (∀ c, last_char (getClientIp req) = Some c → is_space c = false).
Proof.
  intros Hh Hne.
  assert (Hid : getClientIp req = trim (before_comma h)).
  { unfold getClientIp. rewrite Hh. simpl.
    by destruct (String.eqb_spec (trim (before_comma h)) ""). }
  rewrite Hid. split; [done|]. unfold trim. split; [|split].
  - apply trim_end_forall, drop_while_forall, before_comma_free.
  - intros c Hc. apply trim_end_first in Hc. by apply drop_while_first in Hc.
  - intros c. apply trim_end_last.
Qed.

Lemma forwarded_for_takes_precedence_witness :
  getClientIp
    (mkRequest "POST"
       {["x-forwarded-for" := " 203.0.113.7 , 10.0.0.1"; "x-real-ip" := "10.0.0.9"]}
       (Some "127.0.0.1") JNull)
  = "203.0.113.7".
Proof.
  refine (proj1 (forwarded_for_takes_precedence
                   (mkRequest "POST"
                      {["x-forwarded-for" := " 203.0.113.7 , 10.0.0.1";
                        "x-real-ip" := "10.0.0.9"]}
                      (Some "127.0.0.1") JNull)
                   " 203.0.113.7 , 10.0.0.1" _ _)).
  - reflexivity.
  - vm_compute. discriminate.
Defined.

(** X3. Only the part of [x-forwarded-for] before its first comma counts:
    entries appended to the list do not change the identifier, nor the
    entry of the rate-limit table the request is counted against. *)
Theorem appended_proxies_ignored (req : request) (h t : string) :
  getClientIp (forwarded_for (h ++ "," ++ t) req)
  = getClientIp (forwarded_for h req) ∧
  (∀ now_sweep now st,
     isRateLimited now_sweep now
       (getClientIp (forwarded_for (h ++ "," ++ t) req)) st
     = isRateLimited now_sweep now (getClientIp (forwarded_for h req)) st).
Proof.
  assert (H : getClientIp (forwarded_for (h ++ "," ++ t) req)
              = getClientIp (forwarded_for h req)).
  { unfold getClientIp, forwarded_for. simpl.
    rewrite !lookup_insert_eq. simpl. rewrite before_comma_app.
    by rewrite !lookup_insert_ne by done. }
  split; [done|]. intros. by rewrite H.
Qed.

(** ** What validation accepts *)

Lemma too_large_iff (clean : string) :
  Qgtb (estimatedSizeBytes clean) maxSizeBytes = true ↔
  max_base64_length < Z.of_nat (String.length clean).
Proof.
  unfold Qgtb, Qle_bool, estimatedSizeBytes, maxSizeBytes, maxSizeMB,
    max_base64_length.
  rewrite negb_true_iff, Z.leb_gt. cbn. lia.
Qed.

Lemma drop_while_split (f : ascii → bool) (s : string) :
  ∃ run, s = run ++ drop_while f s ∧ string_forall f run = true.
Proof.
  induction s as [|c s (run & Hs & Hrun)]; [by exists ""|]. simpl.
  destruct (f c) eqn:Hc.
  - exists (String c run). split; [|by simpl; rewrite Hc].
    change (String c run ++ drop_while f s) with (String c (run ++ drop_while f s)).
    by rewrite <- Hs.
  - by exists "".
Qed.

(** What the expression of [stripDataUrlPrefix] matches: a prefix
    [data:image/<subtype>;base64,] with a subtype of letters and [+],
    before a payload that is not empty and holds no line terminator. *)
Lemma match_data_url_Some (s payload : string) :
  match_data_url s = Some payload →
  ∃ subtype,
    s = data_url subtype payload ∧ subtype ≠ "" ∧
    string_forall is_subtype_char subtype = true ∧ payload ≠ "" ∧
    string_forall (λ c, negb (is_line_terminator c)) payload = true.
Proof.
  unfold match_data_url.
  destruct (strip_literal "data:image/" s) as [rest|] eqn:Hrest; [|discriminate].
  cbn [mbind option_bind].
  apply strip_literal_Some in Hrest.
  destruct (drop_while_split is_subtype_char rest) as (run & Hsplit & Hrun).
  destruct (Nat.ltb_spec (String.length (drop_while is_subtype_char rest))
              (String.length rest)) as [Hlt|]; [|discriminate].
  destruct (strip_literal ";base64," (drop_while is_subtype_char rest))
    as [p|] eqn:Hp; [|discriminate].
  cbn [mbind option_bind].
  apply strip_literal_Some in Hp.
  destruct (negb (String.eqb p "")) eqn:Hne; [|discriminate].
  destruct (string_forall _ p) eqn:Hlines; [|discriminate].
  intros [= <-]. exists run. unfold data_url.
  split; [by rewrite Hrest, Hsplit, Hp at 1|].
  split.
  { intros ->. apply (f_equal String.length) in Hsplit.
    rewrite string_length_app in Hsplit. simpl in Hsplit. lia. }
  split; [done|]. split; [|done].
  apply negb_true_iff in Hne. by apply String.eqb_neq in Hne.
Qed.

Lemma strip_string_nonempty (s clean : string) :
  stripDataUrlPrefix (JStr s) = Ok clean → s ≠ "" → clean ≠ "".
Proof.
  unfold stripDataUrlPrefix. simpl truthy. rewrite negb_involutive.
  intros H Hs. destruct (String.eqb_spec s ""); [done|].
  destruct (match_data_url s) as [payload|] eqn:Hm; injection H as <-; [|done].
  by apply match_data_url_Some in Hm as (_ & _ & _ & _ & Hp & _).
Qed.

(** X4. On a string, [stripDataUrlPrefix] returns a suffix of it, empty
    only when the string is: what it removes is nothing, or exactly a
    prefix [data:image/<subtype>;base64,] whose subtype is a non-empty
    run of letters and [+], and then what is left holds no line
    terminator. *)
Theorem strip_removes_only_the_prefix (s : string) :
  ∃ pre clean,
    stripDataUrlPrefix (JStr s) = Ok clean ∧
    s = pre ++ clean ∧
    (clean = "" ↔ s = "") ∧
    (pre = "" ∨
     ∃ subtype,
       pre = "data:image/" ++ subtype ++ ";base64," ∧ subtype ≠ "" ∧
       string_forall is_subtype_char subtype = true ∧
       string_forall (λ c, negb (is_line_terminator c)) clean = true).
Proof.
  unfold stripDataUrlPrefix. simpl truthy. rewrite negb_involutive.
  destruct (String.eqb_spec s "") as [->|Hs].
  { exists "", "". repeat split; by left. }
  destruct (match_data_url s) as [payload|] eqn:Hm.
  - apply match_data_url_Some in Hm as (subtype & -> & Hsub & Hchars & Hp & Hl).
    exists ("data:image/" ++ subtype ++ ";base64,"), payload.
    split; [done|]. split.
    { unfold data_url. change ("data:image/" ++ subtype ++ ";base64," ++ payload)
        with (String "d" (String "a" (String "t" (String "a" (String ":"
          (String "i" (String "m" (String "a" (String "g" (String "e" (String "/"
            (subtype ++ ";base64," ++ payload)))))))))))).
      change (("data:image/" ++ subtype ++ ";base64,") ++ payload)
        with (String "d" (String "a" (String "t" (String "a" (String ":"
          (String "i" (String "m" (String "a" (String "g" (String "e" (String "/"
            ((subtype ++ ";base64,") ++ payload)))))))))))).
      do 11 f_equal. clear. induction subtype as [|c t IH]; [reflexivity|].
      change (String c t ++ ";base64," ++ payload)
        with (String c (t ++ ";base64," ++ payload)).
      change ((String c t ++ ";base64,") ++ payload)
        with (String c ((t ++ ";base64,") ++ payload)).
      by rewrite IH. }
    split; [split; [done | discriminate]|].
    right. by exists subtype.
  - exists "", s. split; [done|]. split; [done|]. split; [done | by left].
Qed.

(** The result of a validation that returns. *)
Lemma validate_Ok (imageBase64 mimeType : jsval) (v : validation) :
  validateImagePayload imageBase64 mimeType = Ok v →
  stripDataUrlPrefix imageBase64 = Ok (cleanBase64 v) ∧
  errors v =
    push_if (Qgtb (estimatedSizeBytes (cleanBase64 v)) maxSizeBytes)
      "Image too large. Max size: 10MB"
      (push_if (negb (truthy imageBase64)) "imageBase64 is required"
         (push_if (negb (truthy mimeType) || negb (allowed_includes mimeType))
            "Invalid mimeType. Allowed: image/jpeg, image/png" [])) ∧
  valid v = Nat.eqb (List.length (errors v)) 0.
Proof.
  unfold validateImagePayload.
  destruct (stripDataUrlPrefix imageBase64) as [clean|m]; [|discriminate].
  cbn [rbind]. intros [= <-]. done.
Qed.

Lemma valid_no_error (c1 c2 c3 : bool) (m1 m2 m3 : string) :
  Nat.eqb (List.length (push_if c3 m3 (push_if c2 m2 (push_if c1 m1 [])))) 0 = true →
  c1 = false ∧ c2 = false ∧ c3 = false.
Proof. destruct c1, c2, c3; simpl; done. Qed.

Lemma allowed_includes_true (v : jsval) :
  allowed_includes v = true → v = JStr "image/jpeg" ∨ v = JStr "image/png".
Proof.
  destruct v as [| |b|q|s|l|l]; simpl; try discriminate.
  destruct (String.eqb_spec s "image/jpeg") as [->|]; [by left|].
  destruct (String.eqb_spec s "image/png") as [->|]; [by right|done].
Qed.

(** X5. The error "Image too large" is recorded exactly when the
    stripped payload has more than 13981013 characters, the first
    length whose estimate [length * 3 / 4] exceeds 10 MiB (10485760). *)
Theorem too_large_from_13981014_characters (imageBase64 mimeType : jsval)
    (v : validation) :
  validateImagePayload imageBase64 mimeType = Ok v →
  (In "Image too large. Max size: 10MB" (errors v) ↔
   13981013 < Z.of_nat (String.length (cleanBase64 v))) ∧
  (13981013 < Z.of_nat (String.length (cleanBase64 v)) ↔
   (10 * 1024 * 1024 < estimatedSizeBytes (cleanBase64 v))%Q).
Proof.
  intros Hv. apply validate_Ok in Hv as (_ & He & _).
  pose proof (too_large_iff (cleanBase64 v)) as Hsize.
  unfold max_base64_length in Hsize. split.
  - rewrite <- Hsize, He. clear.
    destruct (Qgtb _ _), (negb (truthy imageBase64)),
      (negb (truthy mimeType) || negb (allowed_includes mimeType));
      simpl; intuition congruence.
  - unfold Qlt, estimatedSizeBytes. cbn. lia.
Qed.

Lemma too_large_from_13981014_characters_witness :
  In "Image too large. Max size: 10MB" (errors (mkValidation true [] "QUJD")) ↔
  13981013 < Z.of_nat (String.length (cleanBase64 (mkValidation true [] "QUJD"))).
Proof.
  exact (proj1 (too_large_from_13981014_characters (JStr "QUJD") (JStr "image/png")
                  (mkValidation true [] "QUJD") eq_refl)).
Defined.

Lemma strip_throws_iff (imageBase64 : jsval) (m : string) :
  stripDataUrlPrefix imageBase64 = Throw m ↔
  m = "imageBase64.match is not a function" ∧
  truthy imageBase64 = true ∧ ∀ s, imageBase64 ≠ JStr s.
Proof.
  unfold stripDataUrlPrefix.
  destruct imageBase64 as [| |b|q|s|l|l]; simpl.
  1,2: split; [discriminate | by intros (_ & ? & _)].
  - destruct b; simpl; split; try discriminate.
    + intros [= <-]. done.
    + intros (-> & _). done.
    + by intros (_ & ? & _).
  - destruct (Qeq_bool q 0); simpl; split; try discriminate.
    + by intros (_ & ? & _).
    + intros [= <-]. done.
    + intros (-> & _). done.
  - split.
    + destruct (negb (negb (String.eqb s ""))); [discriminate|].
      destruct (match_data_url s); discriminate.
    + intros (_ & _ & H). by destruct (H s).
  - split; [intros [= <-]; done | intros (-> & _); done].
  - split; [intros [= <-]; done | intros (-> & _); done].
Qed.

Section Gate.

Variable prompt : string.
Variable JSON_parse : string → result (list (string * jsval)).

Abbreviation internal_error :=
  (send_json 500
     (JObj [("error", JStr "Internal server error");
            ("message", JStr "An unexpected error occurred")])
     (setCorsHeaders fresh_response)).

(** X6. Validation throws exactly when [imageBase64] is truthy and not a
    string (a number, [true], an array, an object), whatever [mimeType]
    is, with the TypeError of the missing [match]; a POST with such an
    image, past the configuration check and the rate limiter, is answered
    500 "Internal server error", with nothing sent upstream. *)
Theorem non_string_image_throws (key : option string) (w : world) (st : store)
    (req : request) (imageBase64 mimeType : jsval) :
  ((∃ m, validateImagePayload imageBase64 mimeType = Throw m) ↔
   truthy imageBase64 = true ∧ ∀ s, imageBase64 ≠ JStr s) ∧
  (truthy imageBase64 = true → (∀ s, imageBase64 ≠ JStr s) →
   validateImagePayload imageBase64 mimeType
     = Throw "imageBase64.match is not a function" ∧
   (method req = "POST" →
    env_truthy key = true →
    (isRateLimited (clock_sweep w) (clock w) (getClientIp req) st).1 = false →
    destructure_body (body req) = Ok (imageBase64, mimeType) →
    out_response (handler prompt JSON_parse key w st req) = internal_error ∧
    out_upstream (handler prompt JSON_parse key w st req) = [])).
Proof.
  assert (Hthrow : ∀ m, validateImagePayload imageBase64 mimeType = Throw m ↔
                        stripDataUrlPrefix imageBase64 = Throw m).
  { intros m. unfold validateImagePayload.
    destruct (stripDataUrlPrefix imageBase64); cbn [rbind]; split; congruence. }
  split.
  - split.
    + intros [m Hm]. apply Hthrow, strip_throws_iff in Hm. tauto.
    + intros [Ht Hs]. exists "imageBase64.match is not a function".
      apply Hthrow, strip_throws_iff. done.
  - intros Ht Hs.
    assert (Hv : validateImagePayload imageBase64 mimeType
                 = Throw "imageBase64.match is not a function").
    { apply Hthrow, strip_throws_iff. done. }
    split; [done|]. intros Hm Hk Hlim Hbody.
    unfold handler, handler_try. rewrite Hm, Hk. cbn.
    destruct (isRateLimited _ _ _ _) as [limited st']. simpl in Hlim. subst limited.
    rewrite Hbody. cbn. rewrite Hv. cbn. done.
Qed.

(** X7. A POST whose body is an object with an [imageBase64] that is a
    string or is falsy, past the configuration check and the rate limiter,
    is answered 400 exactly when [mimeType] is not ["image/jpeg"] or
    ["image/png"], or [imageBase64] is falsy, or the stripped payload has
    more than 13981013 characters; the 400 carries the list of the
    recorded errors and nothing is sent upstream. *)
Theorem well_typed_post_rejected_iff (key : option string) (w : world)
    (st : store) (req : request) (props : list (string * jsval)) :
  method req = "POST" →
  env_truthy key = true →
  (isRateLimited (clock_sweep w) (clock w) (getClientIp req) st).1 = false →
  body req = JObj props →
  let imageBase64 := default JUndefined (assoc_lookup "imageBase64" props) in
  let mimeType := default JUndefined (assoc_lookup "mimeType" props) in
  truthy imageBase64 = false ∨ (∃ s, imageBase64 = JStr s) →
  let o := handler prompt JSON_parse key w st req in
  ∃ v,
    validateImagePayload imageBase64 mimeType = Ok v ∧
    (status (out_response o) = 400 ↔
     (mimeType ≠ JStr "image/jpeg" ∧ mimeType ≠ JStr "image/png") ∨
     truthy imageBase64 = false ∨
     13981013 < Z.of_nat (String.length (cleanBase64 v))) ∧
    (status (out_response o) = 400 →
     resp_body (out_response o) =
       Some (JObj [("error", JStr "Invalid request");
                   ("details", JArr (JStr <$> errors v))]) ∧
     errors v ≠ [] ∧ out_upstream o = []).
Proof.
  intros Hm Hk Hlim Hbody imageBase64 mimeType Htyped o.
  destruct (validation_of_strings prompt JSON_parse imageBase64 mimeType Htyped)
    as (v & clean & Hv & _ & Hclean & Hiff).
  assert (Hd : destructure_body (body req) = Ok (imageBase64, mimeType))
    by (by rewrite Hbody).
  destruct (validation_decides_400 prompt JSON_parse key w st req imageBase64
              mimeType v Hm Hk Hlim Hd Hv) as [Hrej Hacc].
  fold o in Hrej, Hacc.
  assert (H400 : status (out_response o) = 400 ↔ valid v = false).
  { destruct (valid v); split; try done.
    - intros H. by destruct (Hacc eq_refl).
    - intros _. destruct (Hrej eq_refl) as [-> _]. done. }
  exists v. split; [done|]. split.
  - rewrite H400, Hiff, <- Hclean.
    pose proof (too_large_iff (cleanBase64 v)) as Hs.
    unfold max_base64_length in Hs. rewrite <- Hs.
    assert (Hq : (inject_Z (10 * 1024 * 1024) < estimatedSizeBytes (cleanBase64 v))%Q
                 ↔ Qgtb (estimatedSizeBytes (cleanBase64 v)) maxSizeBytes = true).
    { unfold Qgtb, maxSizeBytes, maxSizeMB. rewrite negb_true_iff.
      rewrite <- not_true_iff_false, Qle_bool_iff.
      split; [apply Qlt_not_le | apply Qnot_le_lt]. }
    by rewrite Hq.
  - intros H. apply H400 in H. destruct (Hrej H) as [-> ->].
    split; [done|]. split; [|done].
    apply validate_Ok in Hv as (_ & _ & Hvalid). rewrite H in Hvalid.
    intros He. by rewrite He in Hvalid.
Qed.

(** X8. The handler sends at most one request upstream, and only for a
    POST with the credential configured that the rate limiter let pass
    and validation accepted: the request goes to the [generateContent]
    URL with the key, its [mimeType] is ["image/jpeg"] or ["image/png"],
    and its image data is the stripped payload, not empty and of at
    most 13981013 characters. *)
Theorem upstream_only_validated (key : option string) (w : world) (st : store)
    (req : request) :
  let o := handler prompt JSON_parse key w st req in
  out_upstream o = [] ∨
  ∃ apiKey clean mimeType,
    out_upstream o =
      [mkUpstream
         (GEMINI_API_BASE ++ "/" ++ GEMINI_MODEL ++ ":generateContent?key=" ++ apiKey)
         (gemini_payload prompt clean mimeType)] ∧
    key = Some apiKey ∧ apiKey ≠ "" ∧
    method req = "POST" ∧
    (isRateLimited (clock_sweep w) (clock w) (getClientIp req) st).1 = false ∧
    (mimeType = JStr "image/jpeg" ∨ mimeType = JStr "image/png") ∧
    clean ≠ "" ∧
    Z.of_nat (String.length clean) ≤ 13981013 ∧
    (∃ imageBase64, stripDataUrlPrefix (JStr imageBase64) = Ok clean ∧
       destructure_body (body req) = Ok (JStr imageBase64, mimeType)).
Proof.
  unfold handler, handler_try.
  destruct (String.eqb (method req) "OPTIONS"); [by left|].
  destruct (String.eqb_spec (method req) "POST") as [Hm|]; cbn; [|by left].
  destruct (env_truthy key) eqn:Hk; cbn; [|by left].
  destruct (isRateLimited _ _ _ _) as [[|] st']; cbn; [by left|].
  destruct (destructure_body (body req)) as [[img mime]|m] eqn:Hb; cbn; [|by left].
  destruct (validateImagePayload img mime) as [v|m] eqn:Hv; cbn; [|by left].
  destruct (valid v) eqn:Hvalid; cbn; [|by left].
  apply validate_Ok in Hv as (Hclean & He & Hval).
  rewrite Hvalid, He in Hval. symmetry in Hval.
  apply valid_no_error in Hval as (H1 & H2 & H3).
  apply orb_false_iff in H1 as [_ H1]. apply negb_false_iff in H1, H2.
  apply allowed_includes_true in H1.
  assert (Hsize : Z.of_nat (String.length (cleanBase64 v)) ≤ 13981013).
  { pose proof (too_large_iff (cleanBase64 v)) as Hs.
    unfold max_base64_length in Hs. rewrite H3 in Hs.
    destruct (Z.le_gt_cases (Z.of_nat (String.length (cleanBase64 v))) 13981013);
      [done|]. by apply Hs in H. }
  assert (Himg : ∃ s, img = JStr s).
  { destruct img as [| |b|q|s|l|l]; try (by exists s);
      try (simpl in H2; discriminate);
      unfold stripDataUrlPrefix in Hclean; rewrite H2 in Hclean; discriminate. }
  destruct Himg as [s ->].
  assert (Hne : cleanBase64 v ≠ "").
  { apply (strip_string_nonempty s); [done|]. intros ->. done. }
  destruct key as [apiKey|]; [|done]. simpl in Hk.
  apply negb_true_iff, String.eqb_neq in Hk.
  assert (Hsent : ∀ r, out_upstream
            (match r with
             | (st0, sent, Ok res) => mkOutcome res st0 sent
             | (st0, sent, Throw message) =>
                 mkOutcome (error_response message (setCorsHeaders fresh_response))
                   st0 sent
             end) = r.1.2).
  { by intros [[? ?] [?|?]]. }
  right. exists apiKey, (cleanBase64 v), mime.
  split; [|by eauto 10].
  unfold callGeminiVision. simpl default.
  by destruct (upstream w) as [?|code text json];
    [|destruct (negb (response_ok code)); [destruct text|destruct json]].
Qed.

End Gate.

Lemma non_string_image_throws_witness :
  validateImagePayload (JBool true) (JStr "image/png")
  = Throw "imageBase64.match is not a function".
Proof.
  refine (proj1 (proj2 (non_string_image_throws "" JSON_parse_example None
                          (mkWorld 0 0 (FetchRejected "fetch failed")) ∅
                          (mkRequest "POST" ∅ None JNull)
                          (JBool true) (JStr "image/png")) _ _)).
  - reflexivity.
  - intros s. discriminate.
Defined.

Lemma well_typed_post_rejected_iff_witness :
  let req :=
    mkRequest "POST" ∅ None
      (JObj [("imageBase64", JStr ""); ("mimeType", JStr "image/jpeg")]) in
  let o :=
    handler "" JSON_parse_example (Some "secret")
      (mkWorld 5 5 (FetchRejected "fetch failed")) ∅ req in
  status (out_response o) = 400 ∧
  resp_body (out_response o) =
    Some (JObj [("error", JStr "Invalid request");
                ("details", JArr [JStr "imageBase64 is required"])]).
Proof.
  intros req o.
  assert (Hlim : (isRateLimited 5 5 (getClientIp req) ∅).1 = false)
    by (vm_compute; reflexivity).
  destruct (well_typed_post_rejected_iff "" JSON_parse_example (Some "secret")
              (mkWorld 5 5 (FetchRejected "fetch failed")) ∅ req
              [("imageBase64", JStr ""); ("mimeType", JStr "image/jpeg")]
              eq_refl eq_refl Hlim eq_refl (or_introl eq_refl))
    as (v & Hv & Hiff & Hbody).
  injection Hv as <-.
  assert (H : status (out_response o) = 400).
  { apply Hiff. right. left. reflexivity. }
  split; [exact H|]. exact (proj1 (Hbody H)).
Defined.

(** ** Statuses *)

Section Statuses.

Variable prompt : string.
Variable JSON_parse : string → result (list (string * jsval)).

Lemma health_cases (key : option string) (req : request) :
  (method req = "OPTIONS" ∧ status (Health.handler key req) = 200) ∨
  (method req = "GET" ∧ status (Health.handler key req) = 200) ∨
  (method req ≠ "GET" ∧ method req ≠ "OPTIONS" ∧
   Health.handler key req =
     send_json 405 (JObj [("error", JStr "Method not allowed")])
       (Health.setCorsHeaders fresh_response)).
Proof.
  unfold Health.handler.
  destruct (String.eqb_spec (method req) "OPTIONS") as [Ho|Ho]; [by left|].
  destruct (String.eqb_spec (method req) "GET") as [Hg|Hg]; cbn;
    [right; by left | right; by right].
Qed.

Lemma scan_cases (key : option string) (w : world) (st : store) (req : request) :
  (method req ≠ "POST" ∧ method req ≠ "OPTIONS" ∧
   handler prompt JSON_parse key w st req =
     mkOutcome
       (send_json 405 (JObj [("error", JStr "Method not allowed")])
          (setCorsHeaders fresh_response)) st []) ∨
  ((method req = "POST" ∨ method req = "OPTIONS") ∧
   In (status (out_response (handler prompt JSON_parse key w st req)))
     [200; 400; 429; 500; 502]).
Proof.
  unfold handler.
  destruct (String.eqb_spec (method req) "OPTIONS") as [Ho|Ho].
  { right. split; [by right|]. simpl. tauto. }
  destruct (String.eqb_spec (method req) "POST") as [Hp|Hp]; cbn; [|by left].
  right. split; [by left|]. unfold handler_try.
  destruct (env_truthy key); cbn; [|tauto].
  destruct (isRateLimited _ _ _ _) as [[|] st']; cbn; [tauto|].
  assert (Herr : ∀ m, In (status (error_response m (setCorsHeaders fresh_response)))
                        [200; 400; 429; 500; 502]).
  { intros m. destruct (error_response_status m (setCorsHeaders fresh_response))
      as [->| ->]; simpl; tauto. }
  destruct (destructure_body (body req)) as [[img mime]|m]; cbn; [|apply Herr].
  destruct (validateImagePayload img mime) as [v|m]; cbn; [|apply Herr].
  destruct (valid v); cbn; [|tauto].
  destruct (callGeminiVision _ _ _ _ _) as [sent [g|m]]; cbn; [tauto | apply Herr].
Qed.

(** X9. The health handler answers 200 to GET and OPTIONS and 405, with
    the error "Method not allowed", to any other method, whatever the
    configuration; the scan handler answers 405 exactly to the methods
    other than POST and OPTIONS, leaving the table alone and sending
    nothing upstream, and its status is always one of 200, 400, 405, 429,
    500 and 502. *)
Theorem statuses_of_the_handlers (key : option string) (w : world) (st : store)
    (req : request) :
  let h := Health.handler key req in
  let o := handler prompt JSON_parse key w st req in
  (status h = 200 ∨ status h = 405) ∧
  (status h = 405 ↔ method req ≠ "GET" ∧ method req ≠ "OPTIONS") ∧
  (status h = 405 →
   resp_body h = Some (JObj [("error", JStr "Method not allowed")])) ∧
  (status (out_response o) = 405 ↔ method req ≠ "POST" ∧ method req ≠ "OPTIONS") ∧
  (status (out_response o) = 405 →
   resp_body (out_response o) = Some (JObj [("error", JStr "Method not allowed")]) ∧
   out_store o = st ∧ out_upstream o = []) ∧
  In (status (out_response o)) [200; 400; 405; 429; 500; 502].
Proof.
  intros h o. subst h o.
  destruct (health_cases key req) as [[Ho Hh]|[[Hg Hh]|(Hg & Ho & Hh)]];
    destruct (scan_cases key w st req) as [(Hp & Ho' & Hs)|[Hm Hs]];
    rewrite ?Hh, ?Hs; simpl in *.
  all: repeat match goal with |- _ ∧ _ => split end.
  all: try tauto; try congruence; try discriminate.
  all: try (split; [intros H; rewrite H in Hs; intuition discriminate | tauto]).
  all: try (split; [discriminate | intros [? ?]; congruence]).
  all: try (intros H; rewrite H in Hs; intuition discriminate).
  all: try (split; [intros H; rewrite H in Hs; intuition discriminate
                   | intros [? ?]; destruct Hm; congruence]).
Qed.

(** X10. A POST is answered 200 only when the upstream service replied
    with a status from 200 to 299 and a body that reads as JSON; the body
    of the 200 is then [parseGeminiResponse] of that value, and exactly
    one request went upstream. *)
Theorem success_needs_upstream_success (key : option string) (w : world)
    (st : store) (req : request) :
  method req = "POST" →
  status (out_response (handler prompt JSON_parse key w st req)) = 200 →
  ∃ code text v sent,
    upstream w = FetchResponse code text (Ok v) ∧
    200 ≤ code ≤ 299 ∧
    resp_body (out_response (handler prompt JSON_parse key w st req))
      = Some (parseGeminiResponse JSON_parse v) ∧
    out_upstream (handler prompt JSON_parse key w st req) = [sent].
Proof.
  intros Hm. unfold handler, handler_try. rewrite Hm. cbn.
  destruct (env_truthy key); cbn; [|discriminate].
  destruct (isRateLimited _ _ _ _) as [[|] st']; cbn; [discriminate|].
  assert (Herr : ∀ m, status (error_response m (setCorsHeaders fresh_response)) ≠ 200).
  { intros m. by destruct (error_response_status m (setCorsHeaders fresh_response))
      as [->| ->]. }
  destruct (destructure_body (body req)) as [[img mime]|m]; cbn;
    [|intros H; by apply Herr in H].
  destruct (validateImagePayload img mime) as [v|m]; cbn;
    [|intros H; by apply Herr in H].
  destruct (valid v); cbn; [|discriminate].
  unfold callGeminiVision.
  destruct (upstream w) as [m|code text json]; cbn;
    [intros H; by apply Herr in H|].
  destruct (response_ok code) eqn:Hok; cbn.
  - destruct json as [g|m]; cbn; [|intros H; by apply Herr in H].
    intros _. eexists code, text, g, _. split; [done|].
    unfold response_ok in Hok. apply andb_true_iff in Hok as [H1 H2].
    apply Z.leb_le in H1, H2. done.
  - destruct text as [t|m]; cbn; intros H; by apply Herr in H.
Qed.

(** X11. A POST with the credential configured is answered 429 exactly
    when the table holds for its client an entry that the sweep keeps,
    that is still within its window, and whose count has reached
    [RATE_LIMIT_MAX_REQUESTS]; the table is then left as the sweep left
    it. *)
Theorem limited_iff_quota_used (key : option string) (w : world) (st : store)
    (req : request) :
  method req = "POST" →
  env_truthy key = true →
  let o := handler prompt JSON_parse key w st req in
  (status (out_response o) = 429 ↔
   ∃ e, st !! getClientIp req = Some e ∧
        clock_sweep w - windowStart e ≤ RATE_LIMIT_WINDOW ∧
        clock w - windowStart e < RATE_LIMIT_WINDOW ∧
        RATE_LIMIT_MAX_REQUESTS ≤ count e) ∧
  (status (out_response o) = 429 →
   out_store o = cleanupRateLimitStore (clock_sweep w) st).
Proof.
  intros Hm Hk o.
  destruct (scan_post prompt JSON_parse key w st req Hm Hk) as (Hs & Hlim & Hok).
  fold o in Hs, Hlim, Hok.
  set (ip := getClientIp req) in *.
  assert (H429 : status (out_response o) = 429 ↔
                 (isRateLimited (clock_sweep w) (clock w) ip st).1 = true).
  { destruct (isRateLimited _ _ _ _).1.
    - destruct (Hlim eq_refl) as [-> _]. done.
    - split; [intros H; by apply Hok in H | discriminate]. }
  assert (Hcases : ((isRateLimited (clock_sweep w) (clock w) ip st).1 = true ↔
            ∃ e, st !! ip = Some e ∧
                 clock_sweep w - windowStart e ≤ RATE_LIMIT_WINDOW ∧
                 clock w - windowStart e < RATE_LIMIT_WINDOW ∧
                 RATE_LIMIT_MAX_REQUESTS ≤ count e) ∧
          ((isRateLimited (clock_sweep w) (clock w) ip st).1 = true →
           (isRateLimited (clock_sweep w) (clock w) ip st).2
           = cleanupRateLimitStore (clock_sweep w) st)).
  { destruct (cleanupRateLimitStore (clock_sweep w) st !! ip) as [e|] eqn:He.
    - pose proof He as He'. apply cleanup_lookup_Some in He' as [Hst Hkeep].
      destruct (Z.lt_ge_cases (clock w - windowStart e) RATE_LIMIT_WINDOW) as [Hin|Hout].
      + rewrite (isRateLimited_within _ _ _ _ _ He Hin).
        destruct (Z.leb_spec RATE_LIMIT_MAX_REQUESTS (count e)); simpl.
        * split; [|done]. split; [intros _; by exists e|done].
        * split; [|discriminate]. split; [discriminate|].
          intros (e' & He1 & _ & _ & Hc). rewrite Hst in He1.
          injection He1 as <-. lia.
      + rewrite (isRateLimited_elapsed _ _ _ _ _ He Hout). simpl.
        split; [|discriminate]. split; [discriminate|].
        intros (e' & He1 & _ & Hw & _). rewrite Hst in He1.
        injection He1 as <-. lia.
    - rewrite (isRateLimited_absent _ _ _ _ He). simpl.
      split; [|discriminate]. split; [discriminate|].
      intros (e' & He1 & Hkeep & _).
      assert (cleanupRateLimitStore (clock_sweep w) st !! ip = Some e')
        by (by apply cleanup_lookup_Some).
      congruence. }
  destruct Hcases as [Hiff Hleft].
  split; [by rewrite H429|].
  intros H. apply H429 in H. rewrite Hs. by apply Hleft.
Qed.

(** X12. One request adds at most one entry to the rate-limit table,
    and only for its own client: any other entry the handler leaves was
    in the table it found, unchanged. *)
Theorem table_grows_by_own_entry (key : option string) (w : world) (st : store)
    (req : request) :
  let o := handler prompt JSON_parse key w st req in
  (∀ k e, out_store o !! k = Some e →
     k = getClientIp req ∨ st !! k = Some e) ∧
  (size (out_store o) ≤ S (size st))%nat.
Proof.
  intros o. subst o.
  assert (Hsweep : ∀ now, (size (cleanupRateLimitStore now st) ≤ size st)%nat).
  { intros now. apply map_subseteq_size, map_filter_subseteq. }
  assert (Hins : ∀ (m : store) k e,
            (size m ≤ size st)%nat → (size (<[k := e]> m) ≤ S (size st))%nat).
  { intros m k e Hle. destruct (m !! k) eqn:Hk.
    - rewrite map_size_insert_Some by done. lia.
    - rewrite map_size_insert_None by done. lia. }
  destruct (String.eqb_spec (method req) "POST") as [Hm|Hm].
  2:{ rewrite scan_not_post by done. split; [by right | lia]. }
  destruct (env_truthy key) eqn:Hk.
  2:{ unfold handler, handler_try. rewrite Hm, Hk. cbn. split; [by right | lia]. }
  destruct (scan_post prompt JSON_parse key w st req Hm Hk) as (-> & _ & _).
  split.
  - intros k e He. destruct (decide (k = getClientIp req)) as [|Hne]; [by left|].
    right. rewrite isRateLimited_other in He by done.
    by apply cleanup_lookup_Some in He as [He _].
  - unfold isRateLimited.
    destruct (cleanupRateLimitStore (clock_sweep w) st !! getClientIp req) as [e|].
    + destruct (clock w - windowStart e <? RATE_LIMIT_WINDOW);
        [destruct (RATE_LIMIT_MAX_REQUESTS <=? count e)|]; simpl.
      * pose proof (Hsweep (clock_sweep w)). lia.
      * by apply Hins.
      * by apply Hins.
    + simpl. by apply Hins.
Qed.

End Statuses.

Lemma success_needs_upstream_success_witness :
  let reply := JObj [("candidates", JArr [])] in
  let w := mkWorld 5 5 (FetchResponse 204 (Ok "") (Ok reply)) in
  let req :=
    mkRequest "POST" ∅ None
      (JObj [("imageBase64", JStr "QUJD"); ("mimeType", JStr "image/png")]) in
  ∃ code text v sent,
    upstream w = FetchResponse code text (Ok v) ∧
    200 ≤ code ≤ 299 ∧
    resp_body (out_response (handler "" JSON_parse_example (Some "secret") w ∅ req))
      = Some (parseGeminiResponse JSON_parse_example v) ∧
    out_upstream (handler "" JSON_parse_example (Some "secret") w ∅ req) = [sent].
Proof.
  intros reply w req.
  apply (success_needs_upstream_success "" JSON_parse_example (Some "secret") w ∅ req).
  - reflexivity.
  - vm_compute. reflexivity.
Defined.

Lemma limited_iff_quota_used_witness :
  let st : store := {["unknown" := mkEntry 0 10]} in
  let w := mkWorld 59999 59999 (FetchRejected "fetch failed") in
  let req := mkRequest "POST" ∅ None JUndefined in
  status (out_response (handler "" JSON_parse_example (Some "secret") w st req)) = 429.
Proof.
  intros st w req.
  apply (proj1 (limited_iff_quota_used "" JSON_parse_example (Some "secret") w st req
                  eq_refl eq_refl)).
  exists (mkEntry 0 10). repeat split; vm_compute; congruence.
Defined.

(** ** The text of the reply *)

Lemma prefix_spec (n h : string) :
  String.prefix n h = true ↔ ∃ b, h = n ++ b.
Proof.
  revert h. induction n as [|a n IH]; intros h; simpl.
  - split; [intros _; exists h; reflexivity | intros _; by destruct h].
  - destruct h as [|c h]; [split; [discriminate | intros [b Hb]; discriminate Hb]|].
    simpl. destruct (ascii_dec a c) as [->|Hne].
    + rewrite IH. split; intros [b Hb]; exists b.
      * change (String c n ++ b) with (String c (n ++ b)). by rewrite Hb.
      * change (String c n ++ b) with (String c (n ++ b)) in Hb. by injection Hb.
    + split; [discriminate|]. intros [b Hb].
      change (String a n ++ b) with (String a (n ++ b)) in Hb. congruence.
Qed.

(** [includes] is the test for an occurrence. *)
Lemma includes_spec (n h : string) :
  includes n h = true ↔ ∃ a b, h = a ++ n ++ b.
Proof.
  induction h as [|c h IH].
  - destruct n as [|x n]; simpl.
    + split; [intros _; by exists "", "" | done].
    + split; [discriminate|]. intros ([|? ?] & b & Hb); discriminate Hb.
  - change (includes n (String c h))
      with (String.prefix n (String c h) || includes n h).
    rewrite orb_true_iff, prefix_spec, IH. split.
    + intros [[b Hb]|(a & b & Hb)]; [by exists "", b|].
      exists (String c a), b. rewrite Hb. reflexivity.
    + intros ([|c' a] & b & Hb); [left; by exists b|].
      right. exists a, b.
      change (String c' a ++ n ++ b) with (String c' (a ++ n ++ b)) in Hb.
      by injection Hb.
Qed.

Lemma fence_step (c : ascii) (rest : string) :
  remove_fence_from "```" 0 false (String c rest) =
  if String.prefix "```" (String c rest)
  then remove_fence_from "```" 2 true rest
  else String c (remove_fence_from "```" 0 false rest).
Proof. reflexivity. Qed.

Lemma tick_prefix (s : string) :
  String.prefix "```" s = true ↔
  ∃ r, s = String "`" (String "`" (String "`" r)).
Proof. rewrite prefix_spec. split; intros [r Hr]; by exists r. Qed.

Lemma fence_no_tick_start (s : string) :
  first_char s ≠ Some "`"%char →
  first_char (remove_fence_from "```" 0 false s) ≠ Some "`"%char.
Proof.
  destruct s as [|c rest]; [done|]. intros Hc. rewrite fence_step.
  destruct (String.prefix "```" (String c rest)) eqn:Hp; [|done].
  apply tick_prefix in Hp as [r Hr]. injection Hr as -> _. done.
Qed.

Lemma fence_one_tick (rest : string) :
  first_char rest ≠ Some "`"%char →
  remove_fence_from "```" 0 false (String "`" rest)
  = String "`" (remove_fence_from "```" 0 false rest).
Proof.
  intros Hc. rewrite fence_step.
  destruct (String.prefix "```" (String "`" rest)) eqn:Hp; [|done].
  apply tick_prefix in Hp as [r Hr]. injection Hr as ->. done.
Qed.

Lemma fence_gone (s : string) :
  ∀ drop ws, includes "```" (remove_fence_from "```" drop ws s) = false.
Proof.
  induction s as [|c rest IH]; intros drop ws; [by destruct drop|].
  destruct drop as [|d]; [|apply IH].
  destruct ws.
  { change (remove_fence_from "```" 0 true (String c rest))
      with (if is_space c then remove_fence_from "```" 0 true rest
            else remove_fence_from "```" 0 false (String c rest)).
    destruct (is_space c); [apply IH|].
    rewrite fence_step.
    destruct (String.prefix "```" (String c rest)) eqn:Hp; [apply IH|].
    revert Hp. generalize (IH 0%nat false). clear IH.
    set (X := remove_fence_from "```" 0 false rest).
    intros HX Hp. change (includes "```" (String c X))
      with (String.prefix "```" (String c X) || includes "```" X).
    rewrite HX, orb_false_r. apply not_true_is_false. intros Hq.
    apply tick_prefix in Hq as [r Hr]. injection Hr as -> HX2.
    destruct rest as [|c2 rest2]; [discriminate|].
    destruct (ascii_dec c2 "`") as [->|Hc2].
    - destruct (decide (first_char rest2 = Some "`"%char)) as [H2|H2].
      + destruct rest2 as [|c3 rest3]; [discriminate|]. injection H2 as ->.
        rewrite (proj2 (tick_prefix _) (ex_intro _ rest3 eq_refl)) in Hp.
        discriminate Hp.
      + subst X. rewrite (fence_one_tick _ H2) in HX2. injection HX2 as HX2.
        apply (fence_no_tick_start _ H2). by rewrite HX2.
    - assert (H1 : first_char (String c2 rest2) ≠ Some "`"%char)
        by (simpl; congruence).
      apply (fence_no_tick_start _ H1). fold X. by rewrite HX2. }
  rewrite fence_step.
  destruct (String.prefix "```" (String c rest)) eqn:Hp; [apply IH|].
  revert Hp. generalize (IH 0%nat false). clear IH.
  set (X := remove_fence_from "```" 0 false rest).
  intros HX Hp. change (includes "```" (String c X))
    with (String.prefix "```" (String c X) || includes "```" X).
  rewrite HX, orb_false_r. apply not_true_is_false. intros Hq.
  apply tick_prefix in Hq as [r Hr]. injection Hr as -> HX2.
  destruct rest as [|c2 rest2]; [discriminate|].
  destruct (ascii_dec c2 "`") as [->|Hc2].
  - destruct (decide (first_char rest2 = Some "`"%char)) as [H2|H2].
    + destruct rest2 as [|c3 rest3]; [discriminate|]. injection H2 as ->.
      rewrite (proj2 (tick_prefix _) (ex_intro _ rest3 eq_refl)) in Hp.
      discriminate Hp.
    + subst X. rewrite (fence_one_tick _ H2) in HX2. injection HX2 as HX2.
      apply (fence_no_tick_start _ H2). by rewrite HX2.
  - assert (H1 : first_char (String c2 rest2) ≠ Some "`"%char)
      by (simpl; congruence).
    apply (fence_no_tick_start _ H1). fold X. by rewrite HX2.
Qed.

Lemma fence_keeps_plain (fence s : string) :
  first_char fence = Some "`"%char →
  free_of "`" s →
  remove_fence fence s = s.
Proof.
  intros Hf. unfold remove_fence, free_of.
  destruct fence as [|f fence']; [discriminate|]. injection Hf as ->.
  induction s as [|c rest IH]; [done|].
  change (string_forall (λ x, negb (Ascii.eqb x "`")) (String c rest))
    with (negb (Ascii.eqb c "`")
          && string_forall (λ x, negb (Ascii.eqb x "`")) rest).
  rewrite andb_true_iff, negb_true_iff. intros [Hc Hrest].
  change (remove_fence_from (String "`" fence') 0 false (String c rest))
    with (if String.prefix (String "`" fence') (String c rest)
          then remove_fence_from (String "`" fence')
                 (String.length (String "`" fence') - 1) true rest
          else String c (remove_fence_from (String "`" fence') 0 false rest)).
  destruct (String.prefix (String "`" fence') (String c rest)) eqn:Hp.
  - apply prefix_spec in Hp as [b Hb].
    change (String "`" fence' ++ b) with (String "`" (fence' ++ b)) in Hb.
    injection Hb as -> _. discriminate Hc.
  - by rewrite IH.
Qed.

(** X13. After the two replacements of [parseGeminiResponse], the text
    holds no run of three backquotes, wherever the fences were and
    however many; a text without a backquote is left as it is. *)
Theorem fences_are_removed (text : string) :
  let cleaned := remove_fence "```" (remove_fence "```json" text) in
  (¬ ∃ a b, cleaned = a ++ "```" ++ b) ∧
  (free_of "`" text → cleaned = text).
Proof.
  intros cleaned. split.
  - rewrite <- includes_spec. subst cleaned. unfold remove_fence at 1.
    by rewrite fence_gone.
  - intros Hfree. subst cleaned.
    rewrite (fence_keeps_plain "```json" text) by done.
    by apply fence_keeps_plain.
Qed.

Lemma fences_are_removed_witness :
  remove_fence "```" (remove_fence "```json" "{ }") = "{ }".
Proof.
  refine (proj2 (fences_are_removed "{ }") _). reflexivity.
Defined.

Lemma free_of_cons (x c : ascii) (s : string) :
  free_of x (String c s) ↔ c ≠ x ∧ free_of x s.
Proof.
  unfold free_of. simpl. rewrite andb_true_iff, negb_true_iff.
  by rewrite Ascii.eqb_neq.
Qed.

Lemma from_open_brace_Some (s r : string) :
  from_open_brace s = Some r ↔
  ∃ pre, s = pre ++ r ∧ free_of "{" pre ∧ first_char r = Some "{"%char.
Proof.
  revert r. induction s as [|c s IH]; intros r; simpl.
  - split; [discriminate|]. intros ([|? ?] & Hs & _ & Hr); [|discriminate].
    destruct r; discriminate.
  - destruct (Ascii.eqb_spec c "{") as [->|Hc].
    + split.
      * intros [= <-]. by exists "".
      * intros ([|c' pre] & Hs & Hfree & Hr).
        -- by rewrite Hs.
        -- change (String c' pre ++ r) with (String c' (pre ++ r)) in Hs.
           injection Hs as <- _. apply free_of_cons in Hfree as [Hne _]. done.
    + rewrite IH. split.
      * intros (pre & -> & Hfree & Hr). exists (String c pre).
        split; [reflexivity|]. split; [by apply free_of_cons | done].
      * intros ([|c' pre] & Hs & Hfree & Hr).
        -- change ("" ++ r) with r in Hs. subst r. injection Hr as ->. done.
        -- change (String c' pre ++ r) with (String c' (pre ++ r)) in Hs.
           injection Hs as <- ->. apply free_of_cons in Hfree as [_ Hfree].
           by exists pre.
Qed.

Lemma upto_close_brace_None (s : string) :
  upto_close_brace s = None ↔ free_of "}" s.
Proof.
  induction s as [|c s IH]; [done|]. simpl. rewrite free_of_cons, <- IH.
  destruct (upto_close_brace s); [split; [discriminate | by intros [_ ?]]|].
  destruct (Ascii.eqb_spec c "}") as [Hc|Hc].
  - split; [discriminate | intros [H _]; by destruct H].
  - split; [intros _; by split | reflexivity].
Qed.

Lemma upto_close_brace_Some (s j : string) :
  upto_close_brace s = Some j ↔
  ∃ post, s = j ++ post ∧ last_char j = Some "}"%char ∧ free_of "}" post.
Proof.
  revert j. induction s as [|c s IH]; intros j; simpl.
  - split; [discriminate|]. intros (post & Hs & Hl & _).
    destruct j; discriminate.
  - destruct (upto_close_brace s) as [r|] eqn:Hr.
    + split.
      * intros [= <-]. destruct (proj1 (IH r) eq_refl) as (post & -> & Hl & Hfree).
        exists post. split; [reflexivity|]. split; [|done].
        destruct r; [discriminate | exact Hl].
      * intros (post & Hs & Hl & Hfree).
        destruct j as [|c' j]; [discriminate|].
        change (String c' j ++ post) with (String c' (j ++ post)) in Hs.
        injection Hs as <- Hs. f_equal. f_equal.
        destruct j as [|c2 j].
        -- change ("" ++ post) with post in Hs. subst s.
           apply upto_close_brace_None in Hfree. congruence.
        -- assert (Some r = Some (String c2 j)); [|congruence].
           apply IH. by exists post.
    + apply upto_close_brace_None in Hr.
      destruct (Ascii.eqb_spec c "}") as [->|Hc].
      * split.
        -- intros [= <-]. by exists s.
        -- intros (post & Hs & Hl & Hfree).
           destruct j as [|c' j]; [discriminate|].
           change (String c' j ++ post) with (String c' (j ++ post)) in Hs.
           injection Hs as <- Hs. destruct j as [|c2 j]; [done|].
           exfalso. subst s. clear -Hr Hl.
           revert c2 Hr Hl. induction j as [|c3 j IHj]; intros c2 Hr Hl.
           ++ injection Hl as ->. by apply free_of_cons in Hr as [? _].
           ++ apply free_of_cons in Hr as [_ Hr]. by apply (IHj c3).
      * split; [discriminate|]. intros (post & Hs & Hl & Hfree).
        destruct j as [|c' j]; [discriminate|].
        change (String c' j ++ post) with (String c' (j ++ post)) in Hs.
        injection Hs as <- Hs. destruct j as [|c2 j]; [by injection Hl|].
        exfalso. subst s. clear -Hr Hl.
        revert c2 Hr Hl. induction j as [|c3 j IHj]; intros c2 Hr Hl.
        -- injection Hl as ->. by apply free_of_cons in Hr as [? _].
        -- apply free_of_cons in Hr as [_ Hr]. by apply (IHj c3).
Qed.

Lemma match_json_object_Some (text j : string) :
  match_json_object text = Some j ↔
  ∃ pre post,
    text = pre ++ j ++ post ∧
    first_char j = Some "{"%char ∧ last_char j = Some "}"%char ∧
    free_of "{" pre ∧ free_of "}" post.
Proof.
  unfold match_json_object. split.
  - destruct (from_open_brace text) as [r|] eqn:Hr; [|discriminate].
    cbn [mbind option_bind]. intros Hj.
    apply from_open_brace_Some in Hr as (pre & -> & Hpre & Hfirst).
    apply upto_close_brace_Some in Hj as (post & -> & Hl & Hpost).
    exists pre, post. split; [done|]. split; [|done].
    destruct j; [discriminate | exact Hfirst].
  - intros (pre & post & -> & Hf & Hl & Hpre & Hpost).
    assert (Hr : from_open_brace (pre ++ j ++ post) = Some (j ++ post)).
    { apply from_open_brace_Some. exists pre. split; [done|]. split; [done|].
      destruct j; [discriminate | exact Hf]. }
    rewrite Hr. cbn [mbind option_bind].
    apply upto_close_brace_Some. by exists post.
Qed.

(** X14. The JSON text [parseGeminiResponse] extracts is the span from
    the first opening brace of the text to its last closing brace:
    nothing before it holds an opening brace, nothing after it a closing
    one; there is none exactly when no closing brace follows the first
    opening brace. *)
Theorem json_span_first_to_last (text j : string) :
  (match_json_object text = Some j ↔
   ∃ pre post,
     text = pre ++ j ++ post ∧
     first_char j = Some "{"%char ∧ last_char j = Some "}"%char ∧
     free_of "{" pre ∧ free_of "}" post) ∧
  (match_json_object text = None ↔
   free_of "{" text ∨
   ∃ pre rest, text = pre ++ rest ∧ free_of "{" pre ∧
               first_char rest = Some "{"%char ∧ free_of "}" rest).
Proof.
  split; [apply match_json_object_Some|]. unfold match_json_object.
  - destruct (from_open_brace text) as [r|] eqn:Hr; cbn [mbind option_bind].
    + apply from_open_brace_Some in Hr as (pre & -> & Hpre & Hfirst).
      rewrite upto_close_brace_None. split.
      * intros Hfree. right. by exists pre, r.
      * intros [Hfree|(pre' & rest & Hs & Hpre' & Hf' & Hrest)].
        -- exfalso. unfold free_of in Hfree. rewrite string_forall_app in Hfree.
           apply andb_true_iff in Hfree as [_ Hfree].
           destruct r as [|c r]; [discriminate|]. injection Hfirst as ->.
           by apply free_of_cons in Hfree as [? _].
        -- assert (Hsame : from_open_brace (pre ++ r) = Some rest).
           { apply from_open_brace_Some. by exists pre'. }
           assert (Hsame' : from_open_brace (pre ++ r) = Some r).
           { apply from_open_brace_Some. by exists pre. }
           congruence.
    + split; [|done]. intros _. left.
      clear -Hr. induction text as [|c s IH]; [done|]. simpl in Hr.
      destruct (Ascii.eqb_spec c "{"); [discriminate|].
      apply free_of_cons. split; [done | by apply IH].
Qed.

(** ** The normalised object *)

Lemma assoc_lookup_set_eq (k : string) (v : jsval) (props : list (string * jsval)) :
  assoc_lookup k (assoc_set k v props) = Some v.
Proof.
  induction props as [|[k' v'] props IH]; simpl.
  - by rewrite String.eqb_refl.
  - destruct (String.eqb k k') eqn:Hk; simpl; [by rewrite String.eqb_refl|].
    by rewrite Hk.
Qed.

Lemma assoc_lookup_set_ne (k k' : string) (v : jsval)
    (props : list (string * jsval)) :
  k ≠ k' → assoc_lookup k' (assoc_set k v props) = assoc_lookup k' props.
Proof.
  intros Hne. induction props as [|[k2 v2] props IH]; simpl.
  - destruct (String.eqb_spec k' k); [congruence | done].
  - destruct (String.eqb_spec k k2) as [->|Hk]; simpl.
    + destruct (String.eqb_spec k' k2); [congruence | done].
    + destruct (String.eqb_spec k' k2); [done | exact IH].
Qed.

Section Normalised.

Variable JSON_parse : string → result (list (string * jsval)).

(** The two defaults of [parseGeminiResponse] on a parsed object. *)
Lemma parse_try_Ok (v parsed : jsval) :
  parseGeminiResponse_try JSON_parse v = Ok parsed →
  ∃ text j props0,
    match_json_object (remove_fence "```" (remove_fence "```json" text)) = Some j ∧
    JSON_parse j = Ok props0 ∧
    parsed =
      JObj
        (let p :=
           if is_undefined (default JUndefined (assoc_lookup "detected" props0))
           then assoc_set "detected" (JBool true) props0 else props0 in
         if negb (is_array (default JUndefined (assoc_lookup "items" p)))
         then assoc_set "items" (JArr []) p else p).
Proof.
  unfold parseGeminiResponse_try.
  destruct (get_prop v "candidates") as [c|m]; cbn [rbind]; [|discriminate].
  destruct (negb (truthy c) || is_zero (get_length c)); [discriminate|].
  destruct (negb (truthy _) || is_zero (get_length _)); [discriminate|].
  destruct (js_or _ _) as [| |b|q|text|l|l]; try discriminate.
  destruct (match_json_object _) as [j|] eqn:Hj; [|discriminate].
  destruct (JSON_parse j) as [props0|m] eqn:Hp; cbn [rbind]; [|discriminate].
  intros [= <-]. by exists text, j, props0.
Qed.

(** X15. Whatever the upstream reply, the object [parseGeminiResponse]
    returns has a [detected] that is not [undefined] and an [items] that
    is an array: the fallback has them, and the parsed object gets the
    defaults [true] and [[]] where it lacks them. *)
Theorem result_has_detected_and_items (v : jsval) :
  ∃ props d items,
    parseGeminiResponse JSON_parse v = JObj props ∧
    assoc_lookup "detected" props = Some d ∧ d ≠ JUndefined ∧
    assoc_lookup "items" props = Some (JArr items).
Proof.
  unfold parseGeminiResponse.
  destruct (parseGeminiResponse_try JSON_parse v) as [parsed|m] eqn:Ht.
  2:{ by exists [("detected", JBool true); ("items", JArr []);
                 ("notes", JStr "Model returned non-JSON output; please confirm manually.");
                 ("parseError", JStr m)], (JBool true), []. }
  apply parse_try_Ok in Ht as (text & j & props0 & _ & _ & ->).
  set (p := if is_undefined (default JUndefined (assoc_lookup "detected" props0))
            then assoc_set "detected" (JBool true) props0 else props0).
  assert (Hd : ∃ d, assoc_lookup "detected" p = Some d ∧ d ≠ JUndefined).
  { subst p. destruct (assoc_lookup "detected" props0) as [d|] eqn:Hd; simpl.
    - destruct d; simpl; rewrite ?assoc_lookup_set_eq, ?Hd; by eexists.
    - rewrite assoc_lookup_set_eq. by eexists. }
  destruct Hd as (d & Hd & Hdu). cbv zeta.
  destruct (assoc_lookup "items" p) as [i|] eqn:Hi; simpl.
  - destruct i as [| |b|q|s|items|l]; simpl;
      try (eexists _, d, []; split; [reflexivity|];
           rewrite assoc_lookup_set_ne by done; rewrite assoc_lookup_set_eq; done).
    by exists p, d, items.
  - eexists _, d, []. split; [reflexivity|].
    rewrite assoc_lookup_set_ne by done. by rewrite assoc_lookup_set_eq.
Qed.

(** X16. When the text of the reply holds a JSON object that parses,
    [parseGeminiResponse] returns that object: every property other than
    [detected] and [items] is as parsed, [detected] is kept unless it is
    [undefined], where it becomes [true], and [items] is kept when it is
    an array and replaced by the empty array otherwise. *)
Theorem parsed_object_is_kept (v parsed : jsval) :
  parseGeminiResponse_try JSON_parse v = Ok parsed →
  ∃ j props0 props,
    JSON_parse j = Ok props0 ∧
    first_char j = Some "{"%char ∧ last_char j = Some "}"%char ∧
    parsed = JObj props ∧
    parseGeminiResponse JSON_parse v = JObj props ∧
    (∀ k, k ≠ "detected" → k ≠ "items" →
       assoc_lookup k props = assoc_lookup k props0) ∧
    assoc_lookup "detected" props =
      Some (match assoc_lookup "detected" props0 with
            | Some JUndefined | None => JBool true
            | Some d => d
            end) ∧
    assoc_lookup "items" props =
      Some (match assoc_lookup "items" props0 with
            | Some (JArr items) => JArr items
            | _ => JArr []
            end).
Proof.
  intros Ht. unfold parseGeminiResponse. rewrite Ht.
  apply parse_try_Ok in Ht as (text & j & props0 & Hj & Hp & ->).
  apply match_json_object_Some in Hj as (pre & post & _ & Hf & Hl & _).
  exists j, props0. eexists. split; [done|]. split; [done|]. split; [done|].
  split; [reflexivity|]. split; [reflexivity|].
  set (p := if is_undefined (default JUndefined (assoc_lookup "detected" props0))
            then assoc_set "detected" (JBool true) props0 else props0).
  assert (Hother : ∀ k, k ≠ "detected" → assoc_lookup k p = assoc_lookup k props0).
  { intros k Hk. subst p. destruct (is_undefined _); [|done].
    by rewrite assoc_lookup_set_ne. }
  cbv zeta. split; [|split].
  - intros k Hk1 Hk2. rewrite <- Hother by done.
    destruct (negb (is_array _)); [|done]. by rewrite assoc_lookup_set_ne.
  - assert (Hd : assoc_lookup "detected" p
                 = Some (match assoc_lookup "detected" props0 with
                         | Some JUndefined | None => JBool true
                         | Some d => d
                         end)).
    { subst p. destruct (assoc_lookup "detected" props0) as [d|] eqn:Hd; simpl.
      - destruct d; simpl; rewrite ?assoc_lookup_set_eq, ?Hd; done.
      - by rewrite assoc_lookup_set_eq. }
    destruct (negb (is_array _)); [|done]. by rewrite assoc_lookup_set_ne.
  - rewrite <- (Hother "items") by done.
    destruct (assoc_lookup "items" p) as [i|] eqn:Hi; simpl.
    + destruct i; simpl; rewrite ?assoc_lookup_set_eq, ?Hi; done.
    + by rewrite assoc_lookup_set_eq.
Qed.

End Normalised.

Lemma parsed_object_is_kept_witness :
  let reply :=
    JObj [("candidates",
           JArr [JObj [("content",
                        JObj [("parts", JArr [JObj [("text", JStr "```json {}```")]])])]])] in
  parseGeminiResponse JSON_parse_example reply
  = JObj [("detected", JBool true); ("items", JArr [])].
Proof.
  intros reply.
  destruct (parsed_object_is_kept JSON_parse_example reply
              (JObj [("detected", JBool true); ("items", JArr [])]) eq_refl)
    as (j & props0 & props & _ & _ & _ & Hp & Hr & _).
  injection Hp as <-. exact Hr.
Defined.

(** ** Where the entries of the table come from *)

Section Provenance.

Variable prompt : string.
Variable JSON_parse : string → result (list (string * jsval)).

(** What one request does to an entry: it leaves it, or it is the entry
    of the client of a POST, opened at the clock of the request or counted
    once more while under the maximum. *)
Lemma scan_entry_step (key : option string) (w : world) (st : store)
    (req : request) (k : string) (e : RateLimitEntry) :
  out_store (handler prompt JSON_parse key w st req) !! k = Some e →
  st !! k = Some e ∨
  (is_post_from k (w, req) = true ∧
   (e = mkEntry (clock w) 1 ∨
    ∃ e0, st !! k = Some e0 ∧ count e0 < RATE_LIMIT_MAX_REQUESTS ∧
          e = mkEntry (windowStart e0) (count e0 + 1))).
Proof.
  destruct (String.eqb_spec (method req) "POST") as [Hm|Hm].
  2:{ rewrite scan_not_post by done. by left. }
  destruct (env_truthy key) eqn:Hk.
  2:{ unfold handler, handler_try. rewrite Hm, Hk. cbn. by left. }
  destruct (scan_post prompt JSON_parse key w st req Hm Hk) as (-> & _ & _).
  destruct (decide (k = getClientIp req)) as [->|Hne].
  2:{ rewrite isRateLimited_other by done. intros He.
      apply cleanup_lookup_Some in He as [He _]. by left. }
  assert (Hpost : is_post_from (getClientIp req) (w, req) = true)
    by (by apply is_post_from_spec).
  unfold isRateLimited.
  destruct (cleanupRateLimitStore (clock_sweep w) st !! getClientIp req)
    as [e0|] eqn:He0.
  - apply cleanup_lookup_Some in He0 as [Hst _].
    destruct (clock w - windowStart e0 <? RATE_LIMIT_WINDOW).
    + destruct (Z.leb_spec RATE_LIMIT_MAX_REQUESTS (count e0)); simpl.
      * intros He. apply cleanup_lookup_Some in He as [He _]. by left.
      * rewrite lookup_insert_eq. intros [= <-]. right. split; [done|].
        right. by exists e0.
    + simpl. rewrite lookup_insert_eq. intros [= <-]. right. split; [done|]. by left.
  - simpl. rewrite lookup_insert_eq. intros [= <-]. right. split; [done|]. by left.
Qed.

Lemma serve_entries (key : option string) (arrivals : list (world * request)) :
  ∀ (seen : list (world * request)) (st : store),
  (∀ k e, st !! k = Some e →
     1 ≤ count e ≤ RATE_LIMIT_MAX_REQUESTS ∧
     ∃ a, a ∈ seen ∧ is_post_from k a = true ∧ windowStart e = clock a.1) →
  ∀ i o, serve prompt JSON_parse key st arrivals !! i = Some o →
  ∀ k e, out_store o !! k = Some e →
    1 ≤ count e ≤ RATE_LIMIT_MAX_REQUESTS ∧
    ∃ a, a ∈ (seen ++ take (S i) arrivals)%list ∧
         is_post_from k a = true ∧ windowStart e = clock a.1.
Proof.
  induction arrivals as [|[w req] rest IH]; intros seen st Hinv i o Ho;
    [by destruct i|].
  assert (Hstep : ∀ k e,
            out_store (handler prompt JSON_parse key w st req) !! k = Some e →
            1 ≤ count e ≤ RATE_LIMIT_MAX_REQUESTS ∧
            ∃ a, a ∈ (seen ++ [(w, req)])%list ∧
                 is_post_from k a = true ∧ windowStart e = clock a.1).
  { intros k e He. apply scan_entry_step in He as [He|[Hp [->|(e0 & He0 & Hc & ->)]]].
    - destruct (Hinv k e He) as (Hb & a & Ha & Hpa & Hw). split; [done|].
      exists a. split; [|done]. apply elem_of_app. by left.
    - split; [by compute|]. exists (w, req). split; [|done].
      apply elem_of_app. right. by apply list_elem_of_singleton.
    - destruct (Hinv k e0 He0) as (Hb & a & Ha & Hpa & Hw). simpl.
      split; [lia|]. exists a. split; [|done]. apply elem_of_app. by left. }
  destruct i as [|i]; simpl in Ho.
  - injection Ho as <-. exact Hstep.
  - intros k e He.
    destruct (IH (seen ++ [(w, req)])%list _ Hstep i o Ho k e He) as (Hb & a & Ha & Hrest).
    split; [done|]. exists a. split; [|done].
    by rewrite <- app_assoc in Ha.
Qed.

(** X17. Serving any sequence of requests from the empty table, with
    any configuration and clock readings: every entry of the table has
    a key that is not empty and a count from 1 to 10, and was opened by
    a POST of that very client among the requests served so far, its
    [windowStart] being the clock reading of that request. *)
Theorem entries_opened_by_posts (key : option string)
    (arrivals : list (world * request)) (i : nat) (o : outcome)
    (k : string) (e : RateLimitEntry) :
  serve prompt JSON_parse key ∅ arrivals !! i = Some o →
  out_store o !! k = Some e →
  k ≠ "" ∧
  1 ≤ count e ≤ 10 ∧
  ∃ a, a ∈ take (S i) arrivals ∧
       method a.2 = "POST" ∧ getClientIp a.2 = k ∧
       windowStart e = clock a.1.
Proof.
  intros Ho He.
  destruct (serve_entries key arrivals [] ∅ ltac:(intros ? ? H; by rewrite lookup_empty in H)
              i o Ho k e He) as (Hb & a & Ha & Hp & Hw).
  apply is_post_from_spec in Hp as [Hm Hip].
  split.
  - rewrite <- Hip. unfold getClientIp. by do 3 apply or_else_nonempty.
  - split; [exact Hb|]. by exists a.
Qed.

End Provenance.

Lemma entries_opened_by_posts_witness :
  let a := (mkWorld 7 8 (FetchRejected "fetch failed"),
            mkRequest "POST" ∅ (Some "203.0.113.7") JUndefined) in
  ∃ b, b ∈ take 2 [a; a] ∧ windowStart (mkEntry 8 2) = clock b.1.
Proof.
  intros a.
  destruct (entries_opened_by_posts "" JSON_parse_example (Some "secret") [a; a] 1
              (handler "" JSON_parse_example (Some "secret") a.1
                 (out_store (handler "" JSON_parse_example (Some "secret") a.1 ∅ a.2))
                 a.2)
              "203.0.113.7" (mkEntry 8 2) eq_refl)
    as (_ & _ & b & Hb & _ & _ & Hw).
  - vm_compute. reflexivity.
  - by exists b.
Defined.

(** ** Order of the steps *)

Section Order.

Variable prompt : string.
Variable JSON_parse : string → result (list (string * jsval)).

(** X18. The rate limiter runs before the body is read: for two POSTs
    of the same client handled with the same clock readings and the
    credential configured, the table left and the fact of being answered
    429 are the same whatever the bodies and whatever the upstream service
    does, so a request that fails validation uses up quota like any
    other. *)
Theorem quota_counts_before_validation (key : option string) (st : store)
    (w w' : world) (req req' : request) :
  env_truthy key = true →
  method req = "POST" → method req' = "POST" →
  getClientIp req = getClientIp req' →
  clock_sweep w = clock_sweep w' → clock w = clock w' →
  let o := handler prompt JSON_parse key w st req in
  let o' := handler prompt JSON_parse key w' st req' in
  out_store o = out_store o' ∧
  (status (out_response o) = 429 ↔ status (out_response o') = 429).
Proof.
  intros Hk Hm Hm' Hip Hs Hc o o'.
  destruct (scan_post prompt JSON_parse key w st req Hm Hk) as (H1 & H2 & H3).
  destruct (scan_post prompt JSON_parse key w' st req' Hm' Hk) as (H1' & H2' & H3').
  fold o in H1, H2, H3. fold o' in H1', H2', H3'.
  rewrite <- Hip, <- Hs, <- Hc in H1', H2', H3'.
  split; [congruence|].
  destruct (isRateLimited (clock_sweep w) (clock w) (getClientIp req) st).1.
  - destruct (H2 eq_refl) as [-> _]. destruct (H2' eq_refl) as [-> _]. done.
  - split; intros H; exfalso; [by apply H3 in H | by apply H3' in H].
Qed.

(** X19. A POST that passes the configuration check, the rate limiter
    and validation, and whose upstream reply has a status outside 200 to
    299 with a readable body, is answered 502 "External API error",
    whatever the body says; the message of the response is
    "Gemini API error (<status>): " followed by the first 200 characters
    of the upstream body, even when that body would read as JSON. *)
Theorem upstream_failure_is_502 (key : option string) (w : world) (st : store)
    (req : request) (fields : jsval * jsval) (v : validation)
    (code : Z) (text : string) (json : result jsval) :
  method req = "POST" →
  env_truthy key = true →
  (isRateLimited (clock_sweep w) (clock w) (getClientIp req) st).1 = false →
  destructure_body (body req) = Ok fields →
  validateImagePayload fields.1 fields.2 = Ok v →
  valid v = true →
  upstream w = FetchResponse code (Ok text) json →
  ¬ (200 ≤ code ≤ 299) →
  let o := handler prompt JSON_parse key w st req in
  status (out_response o) = 502 ∧
  resp_body (out_response o) =
    Some (JObj [("error", JStr "External API error");
                ("message",
                 JStr ("Gemini API error (" ++ decimal code ++ "): "
                       ++ String.substring 0 200 text))]).
Proof.
  intros Hm Hk Hlim Hbody Hv Hvalid Hup Hcode o. subst o.
  assert (Hok : response_ok code = false).
  { unfold response_ok. apply not_true_is_false. intros H.
    apply andb_true_iff in H as [H1 H2]. apply Z.leb_le in H1, H2. lia. }
  destruct fields as [img mime]. simpl in Hv.
  unfold handler, handler_try. rewrite Hm, Hk. cbn.
  destruct (isRateLimited _ _ _ _) as [limited st']. simpl in Hlim. subst limited.
  rewrite Hbody. cbn. rewrite Hv. cbn. rewrite Hvalid. cbn.
  unfold callGeminiVision. rewrite Hup, Hok. cbn.
  unfold error_response.
  replace (includes "Gemini API error"
             ("Gemini API error (" ++ decimal code ++ "): "
              ++ String.substring 0 200 text)) with true; [done|].
  symmetry. apply includes_spec. by exists "", (" (" ++ decimal code ++ "): "
              ++ String.substring 0 200 text).
Qed.

End Order.

Lemma quota_counts_before_validation_witness :
  let st : store := {["unknown" := mkEntry 0 3]} in
  let w := mkWorld 5 5 (FetchRejected "fetch failed") in
  let w' := mkWorld 5 5 (FetchResponse 200 (Ok "") (Ok JNull)) in
  let bad := mkRequest "POST" ∅ None JUndefined in
  let good :=
    mkRequest "POST" ∅ None
      (JObj [("imageBase64", JStr "QUJD"); ("mimeType", JStr "image/png")]) in
  out_store (handler "" JSON_parse_example (Some "secret") w st bad)
  = out_store (handler "" JSON_parse_example (Some "secret") w' st good).
Proof.
  intros st w w' bad good.
  refine (proj1 (quota_counts_before_validation "" JSON_parse_example (Some "secret")
                   st w w' bad good _ _ _ _ _ _)); reflexivity.
Defined.

Lemma upstream_failure_is_502_witness :
  let w := mkWorld 5 5 (FetchResponse 404 (Ok "fetch what?") (Ok JNull)) in
  let req :=
    mkRequest "POST" ∅ None
      (JObj [("imageBase64", JStr "QUJD"); ("mimeType", JStr "image/png")]) in
  status (out_response (handler "" JSON_parse_example (Some "secret") w ∅ req)) = 502.
Proof.
  intros w req.
  assert (Hlim : (isRateLimited 5 5 (getClientIp req) ∅).1 = false)
    by (vm_compute; reflexivity).
  refine (proj1 (upstream_failure_is_502 "" JSON_parse_example (Some "secret") w ∅ req
                   (JStr "QUJD", JStr "image/png") (mkValidation true [] "QUJD")
                   404 "fetch what?" (Ok JNull)
                   eq_refl eq_refl Hlim eq_refl eq_refl eq_refl eq_refl _)).
  lia.
Defined.
